(** * golang_roadmap: worker pool, net/http handler and integer stack

    A shallow embedding of three programs of the repository:

    - [BasicDataStructures]: the integer [Stack], [WordFreq] and
      [PrintOldest] of [04_basic_data_structures.go];
    - [NetHTTP]: [createUserHandler], [getUsersHandler], the logging
      middleware and the route of [/users] of
      [08_web_development/01_net_http/main.go];
    - [Pool]: the goroutines of
      [02_core_language/02_concurrent_workers_w_channels_context/concurrent_workers.go]
      as an interleaving transition system over unbuffered channels, a
      context and a WaitGroup. *)

From stdpp Require Import base tactics option list strings gmap.
From Stdlib Require Import ZArith Lia DecimalString.

Local Open Scope Z_scope.

(** ** Go's [int] on a 64-bit platform *)

Definition int_min : Z := - 2 ^ 63.
Definition int_max : Z := 2 ^ 63 - 1.

(** Two's complement wrap-around of a mathematical integer into [int]. *)
Definition int_wrap (z : Z) : Z := (z + 2 ^ 63) mod 2 ^ 64 - 2 ^ 63.

Definition int_add (a b : Z) : Z := int_wrap (a + b).
Definition int_mul (a b : Z) : Z := int_wrap (a * b).

(** ** The integer stack of [04_basic_data_structures.go] *)

Module BasicDataStructures.

(** [type Stack struct { data []int }].  The slice is modelled by the list
    of its elements, index 0 first. *)
Record Stack := { data : list Z }.

(** [func (s *Stack) Push(x int)]: [s.data = append(s.data, x)]. *)
Definition Push (s : Stack) (x : Z) : Stack :=
  {| data := data s ++ [x] |}.

(** [func (s *Stack) Pop() (int, bool)].  The method mutates the receiver,
    so the embedding returns the new stack next to the two results. *)
Definition Pop (s : Stack) : Z * bool * Stack :=
  if (length (data s) =? 0)%nat then (0, false, s)
  else
    let val := nth (length (data s) - 1)%nat (data s) 0 in
    (val, true, {| data := take (length (data s) - 1)%nat (data s) |}).

(** [s := &Stack{}]. *)
Definition empty : Stack := {| data := [] |}.

(** [Push] for each element of [xs], first to last. *)
Definition push_all (s : Stack) (xs : list Z) : Stack := foldl Push s xs.

(** [n] times [Pop], the values and flags returned in order, and the stack
    left. *)
Fixpoint pop_n (n : nat) (s : Stack) : list (Z * bool) * Stack :=
  match n with
  | O => ([], s)
  | S n' =>
    let '(v, ok, s') := Pop s in
    let '(rs, s'') := pop_n n' s' in
    ((v, ok) :: rs, s'')
  end.

(** [type Person struct { Name string; Age int }]. *)
Record Person := { Name : string; Age : Z }.

(** What [PrintOldest] prints: [No people provided.] or
    [Oldest: %s (%d years old)]. *)
Inductive OldestLine :=
| NoPeople
| Oldest (name : string) (age : Z).

(** One round of the loop of [PrintOldest]:
    [if p.Age > oldest.Age { oldest = p }]. *)
Definition older (oldest p : Person) : Person :=
  if Age oldest <? Age p then p else oldest.

(** The variable [oldest] after the loop; there is none for an empty
    slice. *)
Definition oldest_of (people : list Person) : option Person :=
  match people with
  | [] => None
  | p0 :: rest => Some (foldl older p0 rest)
  end.

(** [func PrintOldest(people []Person)]. *)
Definition PrintOldest (people : list Person) : OldestLine :=
  match oldest_of people with
  | None => NoPeople
  | Some o => Oldest (Name o) (Age o)
  end.

(** ASCII white space, as [strings.Fields] has it. *)
Definition is_ascii_space (a : Ascii.ascii) : bool :=
  match Ascii.nat_of_ascii a with
  | 9%nat | 10%nat | 11%nat | 12%nat | 13%nat | 32%nat => true
  | _ => false
  end.

(** [strings.Fields] on a string of ASCII bytes: the maximal runs of bytes
    that are not white space; [cur] is the run being read. *)
Fixpoint ascii_fields_from (cur : string) (s : string) : list string :=
  match s with
  | EmptyString => if String.eqb cur "" then [] else [cur]
  | String a s' =>
    if is_ascii_space a then
      if String.eqb cur "" then ascii_fields_from "" s'
      else cur :: ascii_fields_from "" s'
    else ascii_fields_from (cur +:+ String a "") s'
  end.

Definition ascii_fields (s : string) : list string := ascii_fields_from "" s.

(** [freq[w]++] on a [map[string]int]: a missing key reads as 0. *)
Definition count_word (freq : gmap string Z) (w : string) : gmap string Z :=
  <[w := int_add (default 0 (freq !! w)) 1]> freq.

(** The loop [for _, w := range words { freq[w]++ }] from the empty map. *)
Definition count_words (words : list string) : gmap string Z :=
  foldl count_word ∅ words.

(** The sum of the values of a map. *)
Definition total (freq : gmap string Z) : Z :=
  map_fold (fun _ v acc => v + acc) 0 freq.

Section WordFrequency.

(** [strings.Fields]. *)
Variable Fields : string -> list string.

(** [func WordFreq(s string) map[string]int]. *)
Definition WordFreq (s : string) : gmap string Z := count_words (Fields s).

End WordFrequency.

(** The demo of [main]. *)
Definition demo_text : string := "go go is fun and go is easy".

Example main_demo :
  Pop (Push (Push (Push empty 10) 20) 30) = (30, true, {| data := [10; 20] |}).
Proof. reflexivity. Qed.

Lemma Stack_eta (s : Stack) : {| data := data s |} = s.
Proof. by destruct s. Qed.

(** C10: Pop right after Push(x) returns (x, true) and gives back the stack
    as it was before the Push; Pop on a stack with no element returns
    (0, false) and leaves it as it is, still without elements. *)
Theorem pop_push_roundtrip :
  (forall (s : Stack) (x : Z), Pop (Push s x) = (x, true, s)) /\
  (forall s : Stack, data s = [] ->
     Pop s = (0, false, s) /\ data (snd (Pop s)) = []).
Proof.
  split.
  - intros s x. unfold Pop, Push. cbn [data].
    rewrite length_app. cbn [length].
    replace (length (data s) + 1 - 1)%nat with (length (data s)) by lia.
    destruct (Nat.eqb_spec (length (data s) + 1) 0) as [E|_]; [lia|].
    rewrite app_nth2 by lia. rewrite Nat.sub_diag. cbn [nth].
    rewrite take_app_length. by rewrite Stack_eta.
  - intros s Hs. unfold Pop. rewrite Hs. cbn. by rewrite Hs.
Qed.

Lemma pop_push_roundtrip_witness :
  Pop (Push {| data := [10; 20] |} 30) = (30, true, {| data := [10; 20] |}) /\
  Pop empty = (0, false, empty) /\ data (snd (Pop empty)) = [].
Proof.
  destruct pop_push_roundtrip as [Hpp Hpe].
  split; [apply Hpp|]. apply Hpe. reflexivity.
Defined.

(** *** Sequences of Push and Pop, WordFreq and PrintOldest *)

Lemma push_all_data s xs : data (push_all s xs) = data s ++ xs.
Proof.
  revert s. induction xs as [|x xs IH]; intros s; cbn.
  - by rewrite app_nil_r.
  - rewrite IH. cbn. by rewrite <- app_assoc.
Qed.

Lemma Pop_snoc l x : Pop {| data := l ++ [x] |} = (x, true, {| data := l |}).
Proof.
  unfold Pop. cbn [data]. rewrite length_app. cbn [length].
  replace (length l + 1 - 1)%nat with (length l) by lia.
  destruct (Nat.eqb_spec (length l + 1) 0) as [E|_]; [lia|].
  rewrite app_nth2 by lia. rewrite Nat.sub_diag. cbn [nth].
  by rewrite take_app_length.
Qed.

Lemma Pop_nil : Pop {| data := [] |} = (0, false, {| data := [] |}).
Proof. reflexivity. Qed.

Lemma pop_n_app l xs :
  pop_n (length xs) {| data := l ++ xs |} =
  (map (fun x => (x, true)) (rev xs), {| data := l |}).
Proof.
  revert l. induction xs as [|x xs IH] using rev_ind; intros l.
  - cbn. by rewrite app_nil_r.
  - rewrite length_app. cbn [length]. rewrite Nat.add_1_r. cbn [pop_n].
    rewrite app_assoc, Pop_snoc, IH. by rewrite rev_app_distr.
Qed.

Lemma pop_n_empty k :
  pop_n k {| data := [] |} = (replicate k (0, false), {| data := [] |}).
Proof.
  induction k as [|k IH]; [done|]. cbn [pop_n]. rewrite Pop_nil, IH. done.
Qed.

Lemma pop_n_add n k s :
  pop_n (n + k) s =
  let '(rs, s') := pop_n n s in
  let '(rs', s'') := pop_n k s' in (rs ++ rs', s'').
Proof.
  revert s. induction n as [|n IH]; intros s; cbn [pop_n Nat.add].
  - cbn. by destruct (pop_n k s).
  - destruct (Pop s) as [[v ok] s1]. rewrite IH.
    destruct (pop_n n s1) as [rs s2]. by destruct (pop_n k s2).
Qed.

(** X1: pushing the elements of xs in order and then popping as many
    times gives them back last first, each with true, and leaves the stack
    as it was before the pushes. *)
Theorem pop_n_push_all (s : Stack) (xs : list Z) :
  pop_n (length xs) (push_all s xs) = (map (fun x => (x, true)) (rev xs), s).
Proof.
  pose proof (pop_n_app (data s) xs) as H. rewrite <- push_all_data in H.
  rewrite Stack_eta in H. by destruct s.
Qed.

(** X2: popping a stack more often than it has elements gives its
    elements last first, each with true, then (0, false) every further
    time, and leaves the stack empty. *)
Theorem pop_n_drains (s : Stack) (k : nat) :
  pop_n (length (data s) + k) s =
  (map (fun x => (x, true)) (rev (data s)) ++ replicate k (0, false),
   {| data := [] |}).
Proof.
  rewrite pop_n_add. pose proof (pop_n_app [] (data s)) as H. cbn in H.
  rewrite Stack_eta in H. rewrite H, pop_n_empty. done.
Qed.

Example word_freq_demo :
  WordFreq ascii_fields demo_text =
  {[ "go" := 3; "is" := 2; "fun" := 1; "and" := 1; "easy" := 1 ]}.
Proof. vm_compute. reflexivity. Qed.

(** ** Theorems *)
Lemma int_add_no_wrap a b : int_min <= a + b <= int_max -> int_add a b = a + b.
Proof.
  unfold int_add, int_wrap, int_min, int_max. intros H.
  rewrite Z.mod_small by lia. lia.
Qed.

Lemma count_words_snoc ws w :
  count_words (ws ++ [w]) = count_word (count_words ws) w.
Proof. unfold count_words. by rewrite foldl_snoc. Qed.

Lemma count_words_lookup (ws : list string) (w : string) :
  Z.of_nat (length ws) <= int_max ->
  count_words ws !! w =
  if decide (w ∈ ws) then Some (Z.of_nat (count_occ String.string_dec ws w)) else None.
Proof.
  induction ws as [|v ws IH] using rev_ind; intros Hlen.
  - cbn. rewrite decide_False by (intros H; inversion H). done.
  - rewrite length_app in Hlen. cbn in Hlen.
    rewrite count_words_snoc. unfold count_word.
    rewrite count_occ_app. cbn [count_occ].
    pose proof (count_occ_bound String.string_dec w ws) as Hb.
    specialize (IH ltac:(lia)).
    destruct (decide (v = w)) as [->|Hne].
    + rewrite lookup_insert_eq, IH.
      destruct (decide (w ∈ ws ++ [w])) as [_|Hn].
      2:{ exfalso. apply Hn, elem_of_app. right. by left. }
      destruct (String.string_dec w w) as [_|]; [|done].
      f_equal. destruct (decide (w ∈ ws)) as [Hin|Hnin]; cbn.
      * rewrite int_add_no_wrap; unfold int_min, int_max in *; lia.
      * assert (count_occ String.string_dec ws w = 0%nat) as ->.
        { apply count_occ_not_In. by rewrite <- list_elem_of_In. }
        reflexivity.
    + rewrite lookup_insert_ne by done. rewrite IH.
      destruct (String.string_dec v w) as [|_]; [done|]. rewrite Nat.add_0_r.
      destruct (decide (w ∈ ws)) as [Hin|Hnin];
        destruct (decide (w ∈ ws ++ [v])) as [Hin'|Hnin']; try done.
      * exfalso. apply Hnin', elem_of_app. by left.
      * exfalso. apply elem_of_app in Hin' as [?|?%list_elem_of_singleton]; done.
Qed.

Lemma count_words_dom (ws : list string) :
  dom (count_words ws) = list_to_set ws.
Proof.
  induction ws as [|v ws IH] using rev_ind; [done|].
  rewrite count_words_snoc. unfold count_word.
  rewrite dom_insert_L, IH, list_to_set_snoc_L. apply (comm_L (∪)).
Qed.

Lemma total_insert (m : gmap string Z) (k : string) (v : Z) :
  total (<[k := v]> m) = total m - default 0 (m !! k) + v.
Proof.
  unfold total. destruct (m !! k) as [u|] eqn:E; cbn.
  - rewrite <- (insert_delete_eq m).
    rewrite map_fold_insert_L; [|intros; lia|apply lookup_delete_eq].
    rewrite <- (insert_delete_id m k u E) at 2.
    rewrite map_fold_insert_L; [|intros; lia|apply lookup_delete_eq]. lia.
  - rewrite map_fold_insert_L; [|intros; lia|done]. lia.
Qed.

Lemma count_words_total (ws : list string) :
  Z.of_nat (length ws) <= int_max ->
  total (count_words ws) = Z.of_nat (length ws).
Proof.
  induction ws as [|v ws IH] using rev_ind; intros Hlen; [done|].
  rewrite length_app in *. cbn in Hlen |- *.
  rewrite count_words_snoc. unfold count_word. rewrite total_insert.
  rewrite IH by lia.
  pose proof (count_words_lookup ws v ltac:(lia)) as Hl.
  pose proof (count_occ_bound String.string_dec v ws) as Hb.
  rewrite Hl. case_decide; cbn.
  - rewrite int_add_no_wrap; unfold int_min, int_max in *; lia.
  - rewrite int_add_no_wrap; unfold int_min, int_max in *; lia.
Qed.

Lemma foldl_older_first_maximum (p0 : Person) (rest : list Person) :
  exists i o, (p0 :: rest) !! i = Some o /\ foldl older p0 rest = o /\
    (forall p, p ∈ p0 :: rest -> Age p <= Age o) /\
    (forall j q, (j < i)%nat -> (p0 :: rest) !! j = Some q -> Age q < Age o).
Proof.
  induction rest as [|p rest IH] using rev_ind.
  - exists 0%nat, p0. cbn. split; [done|]. split; [done|]. split.
    + intros p ->%list_elem_of_singleton. lia.
    + intros j q Hj. lia.
  - destruct IH as (i & o & Hi & Ho & Hmax & Hfirst).
    rewrite foldl_snoc, Ho. unfold older.
    destruct (Z.ltb_spec (Age o) (Age p)) as [Hlt|Hge].
    + exists (length (p0 :: rest)), p. split; [|split; [done|split]].
      * rewrite app_comm_cons. apply list_lookup_middle. done.
      * intros q. rewrite app_comm_cons, elem_of_app, list_elem_of_singleton.
        intros [Hq| ->]; [|lia]. specialize (Hmax q Hq). lia.
      * intros j q Hj Hq. rewrite app_comm_cons, lookup_app_l in Hq by done.
        assert (q ∈ p0 :: rest) as Hin by (by eapply list_elem_of_lookup_2).
        specialize (Hmax q Hin). lia.
    + exists i, o. split; [|split; [done|split]].
      * rewrite app_comm_cons. apply lookup_app_l_Some. done.
      * intros q. rewrite app_comm_cons, elem_of_app, list_elem_of_singleton.
        intros [Hq| ->]; [by apply Hmax|lia].
      * intros j q Hj Hq. apply (Hfirst j q Hj).
        pose proof (lookup_lt_Some _ _ _ Hi) as Hlen.
        rewrite app_comm_cons, lookup_app_l in Hq by lia. done.
Qed.

(** X3: PrintOldest on an empty slice prints No people provided.;
    otherwise it prints the name and age of the first person of the
    greatest age. *)
Theorem PrintOldest_first_maximum (people : list Person) :
  (people = [] -> PrintOldest people = NoPeople) /\
  (people <> [] ->
   exists i o, people !! i = Some o /\
     PrintOldest people = Oldest (Name o) (Age o) /\
     (forall p, p ∈ people -> Age p <= Age o) /\
     (forall j q, (j < i)%nat -> people !! j = Some q -> Age q < Age o)).
Proof.
  split; [by intros ->|]. intros Hne.
  destruct people as [|p0 rest]; [done|].
  destruct (foldl_older_first_maximum p0 rest) as (i & o & Hi & Ho & Hmax & Hfirst).
  exists i, o. unfold PrintOldest, oldest_of. rewrite Ho. done.
Qed.

(** X4: the count WordFreq stores for a word is the number of its
    occurrences among the fields of the text; a word that does not occur
    has no entry (so that it reads as 0 in Go). *)
Theorem WordFreq_counts (Fields : string -> list string) (s w : string) :
  Z.of_nat (length (Fields s)) <= int_max ->
  WordFreq Fields s !! w =
  if decide (w ∈ Fields s)
  then Some (Z.of_nat (count_occ String.string_dec (Fields s) w))
  else None.
Proof. intros Hlen. unfold WordFreq. by apply count_words_lookup. Qed.

(** X5: the keys of the map WordFreq returns are the distinct words of
    the text, every count is at least 1, and the counts add up to the
    number of words. *)
Theorem WordFreq_total (Fields : string -> list string) (s : string) :
  Z.of_nat (length (Fields s)) <= int_max ->
  dom (WordFreq Fields s) = list_to_set (Fields s) /\
  (forall w n, WordFreq Fields s !! w = Some n -> 1 <= n) /\
  total (WordFreq Fields s) = Z.of_nat (length (Fields s)).
Proof.
  intros Hlen. unfold WordFreq. split; [apply count_words_dom|]. split.
  - intros w n. rewrite count_words_lookup by done. case_decide as Hin; [|done].
    intros [= <-]. rewrite list_elem_of_In in Hin.
    apply (count_occ_In String.string_dec) in Hin. lia.
  - by apply count_words_total.
Qed.

Lemma WordFreq_counts_witness :
  Z.of_nat (length (ascii_fields demo_text)) <= int_max /\
  WordFreq ascii_fields demo_text !! "go" = Some 3 /\
  WordFreq ascii_fields demo_text !! "rust" = None.
Proof.
  assert (Z.of_nat (length (ascii_fields demo_text)) <= int_max) as Hlen
    by (vm_compute; discriminate).
  split; [exact Hlen|]. split.
  - exact (WordFreq_counts ascii_fields demo_text "go" Hlen).
  - exact (WordFreq_counts ascii_fields demo_text "rust" Hlen).
Defined.

Lemma WordFreq_total_witness :
  Z.of_nat (length (ascii_fields demo_text)) <= int_max /\
  dom (WordFreq ascii_fields demo_text) = list_to_set (ascii_fields demo_text) /\
  total (WordFreq ascii_fields demo_text) = 8.
Proof.
  assert (Z.of_nat (length (ascii_fields demo_text)) <= int_max) as Hlen
    by (vm_compute; discriminate).
  destruct (WordFreq_total ascii_fields demo_text Hlen) as (Hdom & _ & Htot).
  split; [exact Hlen|]. split; [exact Hdom|exact Htot].
Defined.

End BasicDataStructures.

(** ** [createUserHandler] of the net/http example *)

Module NetHTTP.

(** [type User struct { ID int; Name string }]. *)
Record User := { ID : Z; Name : string }.

(** The package-level variables [users] and [nextID].  The mutex [mu]
    serialises the critical sections of concurrent handlers; one call of a
    handler is modelled run to completion, with [mu] free on entry. *)
Record Store := { users : list User; nextID : Z }.

Definition initial_store : Store :=
  {| users := [ {| ID := 1; Name := "Bob" |} ]; nextID := 2 |}.

(** The part of [*http.Request] the handler reads. *)
Record Request := {
  Method : string;
  Header : gmap string (list string);
  Body : string
}.

(** An in-memory [http.ResponseWriter]: the header map, the status code
    once [WriteHeader] has been called, and the bytes the handler has
    written (what a server sends of them is outside the model: for a HEAD
    request it sends none). *)
Record ResponseWriter := {
  rw_header : gmap string (list string);
  rw_status : option Z;
  rw_body : string
}.

Definition new_writer : ResponseWriter :=
  {| rw_header := ∅; rw_status := None; rw_body := "" |}.

Definition MethodPost : string := "POST".
Definition StatusCreated : Z := 201.
Definition StatusBadRequest : Z := 400.
Definition StatusMethodNotAllowed : Z := 405.
Definition StatusUnsupportedMediaType : Z := 415.
Definition StatusInternalServerError : Z := 500.

(** [Header.Get]: the first value stored under the key, or the empty
    string. *)
Definition Header_Get (h : gmap string (list string)) (key : string) : string :=
  match h !! key with
  | Some (v :: _) => v
  | _ => ""
  end.

Definition Header_Set (h : gmap string (list string)) (key v : string)
  : gmap string (list string) := <[key := [v]]> h.

(** [WriteHeader]: only the first call sets the status. *)
Definition WriteHeader (w : ResponseWriter) (code : Z) : ResponseWriter :=
  match rw_status w with
  | Some _ => w
  | None => {| rw_header := rw_header w; rw_status := Some code; rw_body := rw_body w |}
  end.

(** [Write]: an implicit [WriteHeader(200)] when none was sent yet. *)
Definition Write (w : ResponseWriter) (s : string) : ResponseWriter :=
  let w' := WriteHeader w 200 in
  {| rw_header := rw_header w'; rw_status := rw_status w'; rw_body := rw_body w' +:+ s |}.

Definition newline : string := String (Ascii.ascii_of_nat 10) "".

(** [http.Error(w, msg, code)]. *)
Definition http_Error (w : ResponseWriter) (msg : string) (code : Z) : ResponseWriter :=
  let h := delete "Content-Length" (rw_header w) in
  let h := Header_Set h "Content-Type" "text/plain; charset=utf-8" in
  let h := Header_Set h "X-Content-Type-Options" "nosniff" in
  let w := {| rw_header := h; rw_status := rw_status w; rw_body := rw_body w |} in
  Write (WriteHeader w code) (msg +:+ newline).

(** Lines given to [log.Printf]. *)
Inductive LogLine :=
| LogDecodeError
| LogEncodeError.

(** A decoder that accepts no body at all, an encoder that always fails,
    and a PUT request. *)
Definition reject_all : string -> option User := fun _ => None.
Definition encode_none : User -> option string := fun _ => None.

Definition put_request : Request :=
  {| Method := "PUT"; Header := ∅; Body := "" |}.

(** *** The other handlers, the middleware and the route *)

Definition MethodGet : string := "GET".
Definition StatusOK : Z := 200.

(** Lines given to [log.Printf] by the middleware and the handlers. *)
Inductive ServerLog :=
| Started (method path : string)
| Completed (method path : string) (elapsed : Z)
| UsersEncodeError
| FromCreate (l : LogLine).

(** An [http.HandlerFunc], as a function of the store. *)
Definition HandlerFunc : Type :=
  Store -> ResponseWriter -> Request -> Store * ResponseWriter * list ServerLog.

(** [func loggingMiddleware(next http.HandlerFunc) http.HandlerFunc]; the
    path of the URL and the time measured are given from outside. *)
Definition loggingMiddleware (path : string) (elapsed : Z) (next : HandlerFunc)
  : HandlerFunc :=
  fun st w r =>
    let '(st', w', lg) := next st w r in
    (st', w', [Started (Method r) path] ++ lg ++ [Completed (Method r) path elapsed]).

(** What [store_ok] says: no two users share an ID, every ID is below
    [nextID], no name is empty. *)
Definition store_ok (st : Store) : Prop :=
  NoDup (map ID (users st)) /\
  (forall u, u ∈ users st -> ID u < nextID st) /\
  (forall u, u ∈ users st -> Name u <> "").

(** The responses with status 201 among [ws]. *)
Definition created (ws : list ResponseWriter) : nat :=
  length (List.filter (fun w => bool_decide (rw_status w = Some StatusCreated)) ws).

(** Stand-ins for encoding/json in examples: a decoder that takes the whole
    body as the name, encoders that write the names. *)
Definition name_of_body : string -> option User :=
  fun b => Some {| ID := 0; Name := b |}.
Definition encode_name : User -> option string := fun u => Some (Name u).
Definition encode_names : list User -> option string :=
  fun us => Some (String.concat "," (map Name us)).

Definition post_request (body : string) : Request :=
  {| Method := "POST"; Header := {[ "Content-Type" := ["application/json"] ]};
     Body := body |}.
Definition get_request : Request :=
  {| Method := "GET"; Header := ∅; Body := "" |}.

(** A POST that is accepted, a PUT, a GET and a POST without a name. *)
Definition four_requests : list (Request * Z) :=
  [(post_request "Ann", 1); (put_request, 1); (get_request, 1); (post_request "", 1)].

Section Handler.

(** [json.NewDecoder(r.Body).Decode(&u)] on a zero [User]: [None] when it
    returns an error.  [json.NewEncoder(w).Encode(u)]: the bytes written,
    [None] when it returns an error. *)
Variable json_decode : string -> option User.
Variable json_encode : User -> option string.

(** [func createUserHandler(w http.ResponseWriter, r *http.Request)],
    as a function of the store and the request to the new store, the
    response and the log. *)
Definition createUserHandler (st : Store) (w : ResponseWriter) (r : Request)
  : Store * ResponseWriter * list LogLine :=
  if negb (String.eqb (Method r) MethodPost) then
    (st, http_Error w "Method not allowed" StatusMethodNotAllowed, [])
  else
    let contentType := Header_Get (Header r) "Content-Type" in
    if negb (String.eqb contentType "application/json") then
      (st, http_Error w "Content-Type must be application/json"
             StatusUnsupportedMediaType, [])
    else
      match json_decode (Body r) with
      | None => (st, http_Error w "Invalid JSON" StatusBadRequest, [LogDecodeError])
      | Some u =>
        if String.eqb (Name u) "" then
          (st, http_Error w "Name is required" StatusBadRequest, [])
        else
          (* mu.Lock() *)
          let u := {| ID := nextID st; Name := Name u |} in
          let st' := {| users := users st ++ [u]; nextID := int_add (nextID st) 1 |} in
          (* mu.Unlock() *)
          let w := {| rw_header := Header_Set (rw_header w) "Content-Type" "application/json";
                      rw_status := rw_status w; rw_body := rw_body w |} in
          let w := WriteHeader w StatusCreated in
          match json_encode u with
          | Some bytes => (st', Write w bytes, [])
          | None =>
            (st', http_Error w "Internal server error" StatusInternalServerError,
             [LogEncodeError])
          end
      end.

(** [json.NewEncoder(w).Encode(users)] on the slice of users. *)
Variable json_encode_users : list User -> option string.

(** [func getUsersHandler(w http.ResponseWriter, r *http.Request)]. *)
Definition getUsersHandler : HandlerFunc :=
  fun st w r =>
    if negb (String.eqb (Method r) MethodGet) then
      (st, http_Error w "Method not allowed" StatusMethodNotAllowed, [])
    else
      (* mu.Lock(); defer mu.Unlock() *)
      let w := {| rw_header := Header_Set (rw_header w) "Content-Type" "application/json";
                  rw_status := rw_status w; rw_body := rw_body w |} in
      match json_encode_users (users st) with
      | Some bytes => (st, Write w bytes, [])
      | None =>
        (st, http_Error w "Internal server error" StatusInternalServerError,
         [UsersEncodeError])
      end.

(** The handler registered for [/users] in [main], under the middleware:
    a switch on the method. *)
Definition usersRoute : HandlerFunc :=
  fun st w r =>
    if String.eqb (Method r) MethodGet then getUsersHandler st w r
    else if String.eqb (Method r) MethodPost then
      let '(st', w', lg) := createUserHandler st w r in
      (st', w', map FromCreate lg)
    else (st, http_Error w "Method not allowed" StatusMethodNotAllowed, []).

(** The server on a sequence of requests to [/users], each with the time
    its handling takes and with a writer of its own; [mu] makes the
    accesses of concurrent handlers to the store happen in such a
    sequence. *)
Fixpoint serve (st : Store) (rs : list (Request * Z))
  : Store * list ResponseWriter :=
  match rs with
  | [] => (st, [])
  | (r, elapsed) :: rs' =>
    let '(st', w, _) :=
      loggingMiddleware "/users" elapsed usersRoute st new_writer r in
    let '(st'', ws) := serve st' rs' in
    (st'', w :: ws)
  end.

Lemma http_Error_status msg code :
  rw_status (http_Error new_writer msg code) = Some code.
Proof. reflexivity. Qed.

(** C9: a request that createUserHandler rejects (a method other than POST:
    405; a Content-Type other than application/json: 415; a body that does
    not decode: 400; an empty Name: 400) gets that status and leaves users
    and nextID as they were. *)
Theorem createUserHandler_reject_keeps_store (st : Store) (r : Request) :
  let '(st', w', _) := createUserHandler st new_writer r in
  (Method r <> MethodPost ->
     rw_status w' = Some StatusMethodNotAllowed /\ st' = st) /\
  (Method r = MethodPost ->
   Header_Get (Header r) "Content-Type" <> "application/json" ->
     rw_status w' = Some StatusUnsupportedMediaType /\ st' = st) /\
  (Method r = MethodPost ->
   Header_Get (Header r) "Content-Type" = "application/json" ->
   json_decode (Body r) = None ->
     rw_status w' = Some StatusBadRequest /\ st' = st) /\
  (forall u, Method r = MethodPost ->
   Header_Get (Header r) "Content-Type" = "application/json" ->
   json_decode (Body r) = Some u -> Name u = "" ->
     rw_status w' = Some StatusBadRequest /\ st' = st) /\
  (rw_status w' <> Some StatusCreated -> st' = st).
Proof.
  unfold createUserHandler.
  destruct (String.eqb_spec (Method r) MethodPost) as [Hm|Hm]; cbn [negb].
  2:{ repeat split; intros; simplify_eq; done. }
  destruct (String.eqb_spec (Header_Get (Header r) "Content-Type") "application/json")
    as [Hc|Hc]; cbn [negb].
  2:{ repeat split; intros; simplify_eq; done. }
  destruct (json_decode (Body r)) as [u|] eqn:Hd.
  2:{ repeat split; intros; simplify_eq; done. }
  destruct (String.eqb_spec (Name u) "") as [Hn|Hn].
  { repeat split; intros; simplify_eq; done. }
  destruct (json_encode _) as [bytes|];
    (repeat split; intros; simplify_eq; try done);
    exfalso; match goal with H : _ <> _ |- _ => apply H; reflexivity end.
Qed.

Lemma int_add_one a : a < int_max -> int_min <= a -> int_add a 1 = a + 1.
Proof.
  unfold int_add, int_wrap, int_min, int_max. intros H1 H2.
  rewrite Z.mod_small by lia. lia.
Qed.

Lemma createUserHandler_cases st r :
  let '(st', w', _) := createUserHandler st new_writer r in
  (st' = st /\ (rw_status w' = Some StatusMethodNotAllowed \/
                rw_status w' = Some StatusUnsupportedMediaType \/
                rw_status w' = Some StatusBadRequest)) \/
  (exists u, Method r = MethodPost /\ json_decode (Body r) = Some u /\
     Name u <> "" /\ rw_status w' = Some StatusCreated /\
     st' = {| users := users st ++ [ {| ID := nextID st; Name := Name u |} ];
              nextID := int_add (nextID st) 1 |}).
Proof.
  unfold createUserHandler.
  destruct (String.eqb_spec (Method r) MethodPost) as [Hm|Hm]; cbn [negb].
  2:{ left. split; [done|]. by left. }
  destruct (String.eqb (Header_Get (Header r) "Content-Type") "application/json");
    cbn [negb].
  2:{ left. split; [done|]. right. by left. }
  destruct (json_decode (Body r)) as [u|] eqn:Hd.
  2:{ left. split; [done|]. right. by right. }
  destruct (String.eqb_spec (Name u) "") as [Hn|Hn].
  { left. split; [done|]. right. by right. }
  destruct (json_encode _); right; exists u; done.
Qed.

Lemma usersRoute_cases st r :
  let '(st', w', _) := usersRoute st new_writer r in
  (st' = st /\ rw_status w' <> Some StatusCreated /\
   (rw_status w' = Some StatusOK \/
    rw_status w' = Some StatusInternalServerError \/
    rw_status w' = Some StatusMethodNotAllowed \/
    rw_status w' = Some StatusUnsupportedMediaType \/
    rw_status w' = Some StatusBadRequest)) \/
  (exists u, Method r = MethodPost /\ json_decode (Body r) = Some u /\
     Name u <> "" /\ rw_status w' = Some StatusCreated /\
     st' = {| users := users st ++ [ {| ID := nextID st; Name := Name u |} ];
              nextID := int_add (nextID st) 1 |}).
Proof.
  unfold usersRoute.
  destruct (String.eqb_spec (Method r) MethodGet) as [Hg|Hg].
  { unfold getUsersHandler. rewrite Hg. cbn.
    destruct (json_encode_users _); left; (split; [done|]); (split; [done|]).
    - by left.
    - right. by left. }
  destruct (String.eqb_spec (Method r) MethodPost) as [Hp|Hp].
  2:{ left. split; [done|]. split; [done|]. right. right. by left. }
  pose proof (createUserHandler_cases st r) as H.
  destruct (createUserHandler st new_writer r) as [[st' w'] lg].
  destruct H as [(-> & Hs)|H]; [left|by right].
  split; [done|]. split.
  - destruct Hs as [Hs|[Hs|Hs]]; rewrite Hs; done.
  - destruct Hs as [Hs|[Hs|Hs]]; auto.
Qed.

Lemma store_ok_create st name :
  store_ok st -> name <> "" -> int_min <= nextID st < int_max ->
  store_ok {| users := users st ++ [ {| ID := nextID st; Name := name |} ];
              nextID := int_add (nextID st) 1 |}.
Proof.
  intros (Hnd & Hlt & Hname) Hn Hrange. unfold store_ok. cbn.
  rewrite int_add_one by lia. split; [|split].
  - rewrite map_app. cbn. apply NoDup_app. split; [done|]. split.
    + intros x (u & -> & Hu)%list_elem_of_fmap Hx%list_elem_of_singleton.
      specialize (Hlt u Hu). lia.
    + apply NoDup_singleton.
  - intros u [Hu| ->%list_elem_of_singleton]%elem_of_app; cbn; [|lia].
    specialize (Hlt u Hu). lia.
  - intros u [Hu| ->%list_elem_of_singleton]%elem_of_app; cbn; [|done].
    by apply Hname.
Qed.

(** X6: over any sequence of requests to /users the users keep
    pairwise distinct IDs, all below nextID, and non-empty names; users are
    only ever appended, one for each response 201, and nextID grows by the
    number of those responses. *)
Theorem serve_keeps_ids_unique (st : Store) (rs : list (Request * Z)) :
  store_ok st -> int_min <= nextID st ->
  nextID st + Z.of_nat (length rs) <= int_max ->
  let '(st', ws) := serve st rs in
  store_ok st' /\
  users st `prefix_of` users st' /\
  length (users st') = (length (users st) + created ws)%nat /\
  nextID st' = nextID st + Z.of_nat (created ws) /\
  length ws = length rs.
Proof.
  revert st. induction rs as [|[r el] rs IH]; intros st Hok Hmin Hmax.
  - cbn. split; [done|]. split; [done|]. unfold created. cbn.
    split; [lia|]. split; [lia|done].
  - cbn [serve length] in *. unfold loggingMiddleware.
    pose proof (usersRoute_cases st r) as Hr.
    destruct (usersRoute st new_writer r) as [[st1 w1] lg].
    assert (store_ok st1 /\ int_min <= nextID st1 /\
            users st `prefix_of` users st1 /\
            nextID st1 =
              nextID st + (if bool_decide (rw_status w1 = Some StatusCreated)
                           then 1 else 0) /\
            length (users st1) =
              (length (users st) + if bool_decide (rw_status w1 = Some StatusCreated)
                                   then 1 else 0)%nat) as (Hok1 & Hmin1 & Hpre1 & Hn1 & Hl1).
    { destruct Hr as [(-> & Hne & _)|(u & _ & _ & Hname & Hst & ->)].
      - rewrite bool_decide_eq_false_2 by done.
        split; [done|]. split; [done|]. split; [done|]. split; lia.
      - rewrite bool_decide_eq_true_2 by done.
        split; [apply store_ok_create; [done|done|lia]|].
        cbn. rewrite int_add_one by lia.
        split; [lia|]. split; [by apply prefix_app_r|].
        split; [done|]. rewrite length_app. cbn. lia. }
    specialize (IH st1 Hok1 Hmin1).
    destruct (serve st1 rs) as [st2 ws].
    destruct IH as (Hok2 & Hpre2 & Hl2 & Hn2 & Hlen).
    { destruct (bool_decide _); lia. }
    unfold created in *. cbn [List.filter].
    destruct (bool_decide (rw_status w1 = Some StatusCreated)); cbn [length].
    + split; [done|]. split; [by etrans|]. split; [lia|]. split; [lia|]. lia.
    + split; [done|]. split; [by etrans|]. split; [lia|]. split; [lia|]. lia.
Qed.

Lemma createUserHandler_accepts (st : Store) (r : Request) (u : User) :
  Method r = MethodPost ->
  Header_Get (Header r) "Content-Type" = "application/json" ->
  json_decode (Body r) = Some u -> Name u <> "" ->
  let '(st', w', _) := createUserHandler st new_writer r in
  st' = {| users := users st ++ [ {| ID := nextID st; Name := Name u |} ];
           nextID := int_add (nextID st) 1 |} /\
  rw_status w' = Some StatusCreated.
Proof.
  intros Hp Hct Hd Hn. apply String.eqb_neq in Hn.
  unfold createUserHandler. rewrite Hp, Hct, Hd, Hn. cbn [String.eqb negb].
  cbn -[Header_Set int_add].
  destruct (json_encode _); cbn -[Header_Set int_add]; repeat split; done.
Qed.

(** X7: after a POST that creates a user, a GET is answered 200 with
    Content-Type application/json and the encoding of the users that were
    there followed by the new one. *)
Theorem post_then_get (st : Store) (post get : Request) (e1 e2 : Z)
    (u : User) (bytes : string) :
  Method post = MethodPost ->
  Header_Get (Header post) "Content-Type" = "application/json" ->
  json_decode (Body post) = Some u -> Name u <> "" ->
  Method get = MethodGet ->
  json_encode_users (users st ++ [ {| ID := nextID st; Name := Name u |} ])
    = Some bytes ->
  exists st' w1 w2,
    serve st [(post, e1); (get, e2)] = (st', [w1; w2]) /\
    rw_status w1 = Some StatusCreated /\
    rw_status w2 = Some StatusOK /\ rw_body w2 = bytes /\
    Header_Get (rw_header w2) "Content-Type" = "application/json" /\
    users st' = users st ++ [ {| ID := nextID st; Name := Name u |} ].
Proof.
  intros Hp Hct Hd Hn Hg He.
  pose proof (createUserHandler_accepts st post u Hp Hct Hd Hn) as Hacc.
  cbn [serve]. unfold loggingMiddleware, usersRoute at 1.
  rewrite Hp. cbn [String.eqb Ascii.eqb Bool.eqb MethodGet MethodPost].
  change (String.eqb "POST" "GET") with false.
  change (String.eqb "POST" MethodPost) with true. cbn iota.
  destruct (createUserHandler st new_writer post) as [[st1 w1] lg1].
  destruct Hacc as (-> & Hs1).
  unfold usersRoute, getUsersHandler. rewrite Hg.
  change (String.eqb MethodGet MethodGet) with true. cbn [negb].
  cbn [users]. rewrite He.
  eexists _, _, _. split; [reflexivity|]. repeat split; done.
Qed.

(** X8: the route of /users answers every method other than GET and
    POST with 405 and leaves the store as it is; a GET is answered 200 or
    500 and never changes the store; the store changes only on a POST that
    is answered 201. *)
Theorem usersRoute_methods (st : Store) (r : Request) :
  let '(st', w', _) := usersRoute st new_writer r in
  (Method r <> MethodGet -> Method r <> MethodPost ->
     st' = st /\ rw_status w' = Some StatusMethodNotAllowed) /\
  (Method r = MethodGet -> st' = st /\
     (rw_status w' = Some StatusOK \/
      rw_status w' = Some StatusInternalServerError)) /\
  (st' <> st -> Method r = MethodPost /\ rw_status w' = Some StatusCreated).
Proof.
  pose proof (usersRoute_cases st r) as H. unfold usersRoute in *.
  destruct (String.eqb_spec (Method r) MethodGet) as [Hg|Hg].
  { unfold getUsersHandler in *. rewrite Hg in *. cbn in *.
    destruct (json_encode_users _); cbn.
    all: split; [done|]; split; [|done]; intros _; split; [done|]; auto. }
  destruct (String.eqb_spec (Method r) MethodPost) as [Hpo|Hpo].
  2:{ split; [done|]. split; done. }
  destruct (createUserHandler st new_writer r) as [[st' w'] lg].
  split; [done|]. split; [done|]. intros Hne.
  destruct H as [(-> & _)|(u & _ & _ & _ & Hs & _)]; done.
Qed.

(** X9: a POST with Content-Type application/json whose body decodes
    to a user with a name is answered 201, whatever the encoder of the
    response does; the user is appended with the ID nextID had (the ID of
    the body is ignored) and nextID is incremented. *)
Theorem createUserHandler_stores_before_encoding (st : Store) (r : Request) (u : User) :
  Method r = MethodPost ->
  Header_Get (Header r) "Content-Type" = "application/json" ->
  json_decode (Body r) = Some u -> Name u <> "" ->
  let '(st', w', _) := createUserHandler st new_writer r in
  users st' = users st ++ [ {| ID := nextID st; Name := Name u |} ] /\
  nextID st' = int_add (nextID st) 1 /\
  rw_status w' = Some StatusCreated.
Proof.
  intros Hp Hct Hd Hn.
  pose proof (createUserHandler_accepts st r u Hp Hct Hd Hn) as H.
  destruct (createUserHandler st new_writer r) as [[st' w'] lg].
  destruct H as (-> & Hs). done.
Qed.

End Handler.

Lemma createUserHandler_reject_witness :
  Method put_request <> MethodPost /\
  rw_status (snd (fst (createUserHandler reject_all encode_none initial_store
                         new_writer put_request)))
    = Some StatusMethodNotAllowed /\
  fst (fst (createUserHandler reject_all encode_none initial_store
              new_writer put_request)) = initial_store.
Proof.
  pose proof (createUserHandler_reject_keeps_store reject_all encode_none
                initial_store put_request) as H.
  destruct (createUserHandler reject_all encode_none initial_store
              new_writer put_request) as [[st' w'] lg] eqn:E.
  destruct H as [H405 _].
  assert (Hm : Method put_request <> MethodPost) by (vm_compute; discriminate).
  split; [exact Hm|]. exact (H405 Hm).
Defined.

Lemma initial_store_ok : store_ok initial_store.
Proof.
  split; [|split]; cbn.
  - apply NoDup_singleton.
  - intros u ->%list_elem_of_singleton. cbn. lia.
  - intros u ->%list_elem_of_singleton. done.
Qed.

Lemma serve_keeps_ids_unique_witness :
  store_ok initial_store /\ int_min <= nextID initial_store /\
  nextID initial_store + Z.of_nat (length four_requests) <= int_max /\
  store_ok (fst (serve name_of_body encode_name encode_names initial_store
                   four_requests)) /\
  nextID (fst (serve name_of_body encode_name encode_names initial_store
                 four_requests)) = 3 /\
  length (snd (serve name_of_body encode_name encode_names initial_store
                 four_requests)) = 4%nat.
Proof.
  assert (int_min <= nextID initial_store) as Hmin by (vm_compute; discriminate).
  assert (nextID initial_store + Z.of_nat (length four_requests) <= int_max) as Hmax
    by (vm_compute; discriminate).
  pose proof (serve_keeps_ids_unique name_of_body encode_name encode_names
                initial_store four_requests initial_store_ok Hmin Hmax) as H.
  destruct (serve name_of_body encode_name encode_names initial_store four_requests)
    as [st' ws] eqn:E.
  destruct H as (Hok & _ & _ & Hnext & Hlen).
  split; [exact initial_store_ok|]. split; [exact Hmin|]. split; [exact Hmax|].
  split; [exact Hok|]. split; [|exact Hlen].
  vm_compute in E. injection E as <- <-. reflexivity.
Defined.

Lemma post_then_get_witness :
  Method (post_request "Ann") = MethodPost /\
  Header_Get (Header (post_request "Ann")) "Content-Type" = "application/json" /\
  name_of_body (Body (post_request "Ann")) = Some {| ID := 0; Name := "Ann" |} /\
  Method get_request = MethodGet /\
  encode_names (users initial_store ++ [ {| ID := nextID initial_store; Name := "Ann" |} ])
    = Some "Bob,Ann" /\
  exists st' w1 w2,
    serve name_of_body encode_name encode_names initial_store
      [(post_request "Ann", 1); (get_request, 2)] = (st', [w1; w2]) /\
    rw_status w1 = Some StatusCreated /\
    rw_status w2 = Some StatusOK /\ rw_body w2 = "Bob,Ann" /\
    Header_Get (rw_header w2) "Content-Type" = "application/json" /\
    users st' = users initial_store ++ [ {| ID := nextID initial_store; Name := "Ann" |} ].
Proof.
  assert (Method (post_request "Ann") = MethodPost) as Hp by reflexivity.
  assert (Header_Get (Header (post_request "Ann")) "Content-Type" = "application/json")
    as Hct by reflexivity.
  assert (name_of_body (Body (post_request "Ann")) = Some {| ID := 0; Name := "Ann" |})
    as Hd by reflexivity.
  assert (Name {| ID := 0; Name := "Ann" |} <> "") as Hn by discriminate.
  assert (Method get_request = MethodGet) as Hg by reflexivity.
  assert (encode_names
            (users initial_store ++ [ {| ID := nextID initial_store; Name := "Ann" |} ])
          = Some "Bob,Ann") as He by reflexivity.
  split; [exact Hp|]. split; [exact Hct|]. split; [exact Hd|]. split; [exact Hg|].
  split; [exact He|].
  exact (post_then_get name_of_body encode_name encode_names initial_store
           (post_request "Ann") get_request 1 2 _ _ Hp Hct Hd Hn Hg He).
Defined.

Lemma createUserHandler_stores_before_encoding_witness :
  Method (post_request "Ann") = MethodPost /\
  Header_Get (Header (post_request "Ann")) "Content-Type" = "application/json" /\
  name_of_body (Body (post_request "Ann")) = Some {| ID := 0; Name := "Ann" |} /\
  users (fst (fst (createUserHandler name_of_body encode_none initial_store
                     new_writer (post_request "Ann"))))
    = [ {| ID := 1; Name := "Bob" |}; {| ID := 2; Name := "Ann" |} ] /\
  rw_status (snd (fst (createUserHandler name_of_body encode_none initial_store
                         new_writer (post_request "Ann"))))
    = Some StatusCreated.
Proof.
  assert (Method (post_request "Ann") = MethodPost) as Hp by reflexivity.
  assert (Header_Get (Header (post_request "Ann")) "Content-Type" = "application/json")
    as Hct by reflexivity.
  assert (name_of_body (Body (post_request "Ann")) = Some {| ID := 0; Name := "Ann" |})
    as Hd by reflexivity.
  assert (Name {| ID := 0; Name := "Ann" |} <> "") as Hn by discriminate.
  pose proof (createUserHandler_stores_before_encoding name_of_body encode_none
                initial_store (post_request "Ann") _ Hp Hct Hd Hn) as H.
  destruct (createUserHandler name_of_body encode_none initial_store
              new_writer (post_request "Ann")) as [[st' w'] lg].
  destruct H as (Hu & _ & Hs).
  split; [exact Hp|]. split; [exact Hct|]. split; [exact Hd|].
  split; [exact Hu|exact Hs].
Defined.

End NetHTTP.

(** ** The worker pool of [concurrent_workers.go]

    The program runs [main], [numWorkers] workers, one goroutine that sends
    the jobs and one that collects the results.  Each goroutine is a
    program counter; a state of the program holds them together with the
    two unbuffered channels, the context and the WaitGroup.  An [Event] is
    one atomic action of one goroutine (or one rendezvous of a sender with
    a receiver); [step] says what the action does, whether it cannot
    happen now ([Blocked]) or whether it is a run-time panic.  Time is
    abstracted: [time.Sleep] ends, and the timer of the context fires, at
    any point of the interleaving.  A [select] with several ready cases
    may take any of them, as the Go specification has it. *)

Module Pool.

(** [type Job struct { ID int }]. *)
Record Job := { ID : Z }.

(** [type Result struct { JobID int; Value int }]. *)
Record Result := { JobID : Z; Value : Z }.

(** The three constants of [main]: [numWorkers], [numJobs] and the
    duration given to [context.WithTimeout] (in nanoseconds). *)
Record Config := { numWorkers : Z; numJobs : Z; timeout : Z }.

Definition Second : Z := 1000000000.

Definition main_config : Config :=
  {| numWorkers := 3; numJobs := 10; timeout := 2 * Second |}.

(** [ctx.Err()]: [nil] while the context is live. *)
Inductive CtxErr := Active | DeadlineExceeded | Canceled.

(** Whether [ctx.Done()] is closed. *)
Definition ctx_done (c : CtxErr) : bool :=
  match c with Active => false | _ => true end.

(** [context.WithTimeout]: a deadline that has already passed cancels the
    context before it is returned. *)
Definition WithTimeout (d : Z) : CtxErr :=
  if d <=? 0 then DeadlineExceeded else Active.

(** The [cancel] function returned by [context.WithTimeout]. *)
Definition cancel (c : CtxErr) : CtxErr :=
  match c with Active => Canceled | _ => c end.

(** The lines the program prints. *)
Inductive Output :=
| WorkerCancelled (id : Z)
| WorkerJobsClosed (id : Z)
| WorkerProcessed (id : Z) (job : Z)
| ResultLine (job value : Z)
| CollectionCancelled
| AllCollected
| MainTimeout.

(** Where a worker is in [func worker]. *)
Inductive WorkerPC :=
| WSelect                 (* at the select of the loop *)
| WSleep (job : Job)      (* job received, in time.Sleep *)
| WSend (job : Job)       (* at results <- Result{...} *)
| WPrint (job : Job)      (* result sent, before the Printf *)
| WExit.                  (* returned, wg.Done() has run *)

Record Worker := { wid : Z; wpc : WorkerPC }.

(** The goroutine that sends the jobs: [DFor j] is its loop with counter
    [j], at the test [j <= numJobs]. *)
Inductive DispatcherPC :=
| DIdle
| DFor (j : Z)
| DExit.

(** The goroutine that collects: [CFor r] is its loop with counter [r], at
    the test [r <= numJobs]; past the loop it is at [done <- struct{}{}]. *)
Inductive CollectorPC :=
| CIdle
| CFor (r : Z)
| CPrint (r : Z) (res : Result)
| CExit.

Inductive MainPC :=
| MStartWorkers (w : Z)   (* the loop that starts the workers *)
| MStartCollector         (* dispatcher started, collector not yet *)
| MWait                   (* wg.Wait() *)
| MCloseResults           (* close(results) *)
| MSelect                 (* the last select *)
| MExit.                  (* returned: the program is over *)

Record State := {
  ctx : CtxErr;
  jobs_closed : bool;
  results_closed : bool;
  wg : Z;
  main : MainPC;
  workers : list Worker;
  dispatcher : DispatcherPC;
  collector : CollectorPC;
  stdout : list Output
}.

Definition set_ctx (s : State) (c : CtxErr) : State :=
  {| ctx := c; jobs_closed := jobs_closed s; results_closed := results_closed s;
     wg := wg s; main := main s; workers := workers s;
     dispatcher := dispatcher s; collector := collector s; stdout := stdout s |}.

Definition set_jobs_closed (s : State) : State :=
  {| ctx := ctx s; jobs_closed := true; results_closed := results_closed s;
     wg := wg s; main := main s; workers := workers s;
     dispatcher := dispatcher s; collector := collector s; stdout := stdout s |}.

Definition set_results_closed (s : State) : State :=
  {| ctx := ctx s; jobs_closed := jobs_closed s; results_closed := true;
     wg := wg s; main := main s; workers := workers s;
     dispatcher := dispatcher s; collector := collector s; stdout := stdout s |}.

Definition set_wg (s : State) (n : Z) : State :=
  {| ctx := ctx s; jobs_closed := jobs_closed s; results_closed := results_closed s;
     wg := n; main := main s; workers := workers s;
     dispatcher := dispatcher s; collector := collector s; stdout := stdout s |}.

Definition set_main (s : State) (m : MainPC) : State :=
  {| ctx := ctx s; jobs_closed := jobs_closed s; results_closed := results_closed s;
     wg := wg s; main := m; workers := workers s;
     dispatcher := dispatcher s; collector := collector s; stdout := stdout s |}.

Definition set_workers (s : State) (ws : list Worker) : State :=
  {| ctx := ctx s; jobs_closed := jobs_closed s; results_closed := results_closed s;
     wg := wg s; main := main s; workers := ws;
     dispatcher := dispatcher s; collector := collector s; stdout := stdout s |}.

Definition set_dispatcher (s : State) (d : DispatcherPC) : State :=
  {| ctx := ctx s; jobs_closed := jobs_closed s; results_closed := results_closed s;
     wg := wg s; main := main s; workers := workers s;
     dispatcher := d; collector := collector s; stdout := stdout s |}.

Definition set_collector (s : State) (c : CollectorPC) : State :=
  {| ctx := ctx s; jobs_closed := jobs_closed s; results_closed := results_closed s;
     wg := wg s; main := main s; workers := workers s;
     dispatcher := dispatcher s; collector := c; stdout := stdout s |}.

(** [fmt.Printf] and [fmt.Println]: one more line on standard output. *)
Definition print (s : State) (o : Output) : State :=
  {| ctx := ctx s; jobs_closed := jobs_closed s; results_closed := results_closed s;
     wg := wg s; main := main s; workers := workers s;
     dispatcher := dispatcher s; collector := collector s;
     stdout := stdout s ++ [o] |}.

(** Worker [i] (its position in the list) moves to [pc]. *)
Definition set_worker (s : State) (i : nat) (w : Worker) (pc : WorkerPC) : State :=
  set_workers s (<[i := {| wid := wid w; wpc := pc |}]> (workers s)).

Inductive Event :=
| EvTimeout                       (* the timer of the context fires *)
| EvMainStartWorker               (* wg.Add(1); go worker(ctx, w, ...) *)
| EvMainStartDispatcher           (* go func() { ... jobs <- ... }() *)
| EvMainStartCollector            (* done := make(...); go func() {...}() *)
| EvMainWaited                    (* wg.Wait() returns *)
| EvMainCloseResults              (* close(results) *)
| EvMainDone                      (* case <-done, with the collector's send *)
| EvMainCancelled                 (* case <-ctx.Done() of main *)
| EvWorkerCancelled (i : nat)     (* case <-ctx.Done() of worker i *)
| EvWorkerJob (i : nat)           (* case job, ok := <-jobs, ok: a send met *)
| EvWorkerJobsClosed (i : nat)    (* case job, ok := <-jobs, !ok *)
| EvWorkerWake (i : nat)          (* time.Sleep returns *)
| EvWorkerResult (i : nat)        (* results <- ..., met by the collector *)
| EvWorkerSendClosed (i : nat)    (* results <- ... on a closed channel *)
| EvWorkerPrinted (i : nat)       (* Printf "processed job" *)
| EvDispatcherSendClosed          (* jobs <- ... on a closed channel *)
| EvDispatcherClose               (* close(jobs) *)
| EvCollectorClosed               (* case res := <-results, closed: zero value *)
| EvCollectorPrinted              (* Printf "Result: job ..." *)
| EvCollectorCancelled.           (* case <-ctx.Done() of the collector *)

Inductive Panic :=
| SendOnClosedChannel
| CloseOfClosedChannel
| NegativeWaitGroupCounter.

Inductive Outcome :=
| Blocked
| Panicked (p : Panic)
| Next (s : State).

(** [wg.Done()] at the return of a worker. *)
Definition worker_return (s : State) (i : nat) (w : Worker) : Outcome :=
  if wg s - 1 <? 0 then Panicked NegativeWaitGroupCounter
  else Next (set_wg (set_worker s i w WExit) (wg s - 1)).

(** The [Result] a worker builds from its job. *)
Definition result_of (job : Job) : Result :=
  {| JobID := ID job; Value := int_mul (ID job) 2 |}.

(** The deferred [cancel()] of [main], then the end of the program.  The
    last [Println] of [main] and the end of the process are one step: what
    the collector may still print in between is not part of [stdout]. *)
Definition main_return (s : State) : State :=
  set_main (set_ctx s (cancel (ctx s))) MExit.

Definition exited (m : MainPC) : bool :=
  match m with MExit => true | _ => false end.

Definition step (c : Config) (s : State) (e : Event) : Outcome :=
  if exited (main s) then Blocked else
  match e with
  | EvTimeout =>
    match ctx s with
    | Active => Next (set_ctx s DeadlineExceeded)
    | _ => Blocked
    end
  | EvMainStartWorker =>
    match main s with
    | MStartWorkers w =>
      if w <=? numWorkers c then
        Next (set_main
                (set_workers (set_wg s (wg s + 1))
                   (workers s ++ [ {| wid := w; wpc := WSelect |} ]))
                (MStartWorkers (int_add w 1)))
      else Blocked
    | _ => Blocked
    end
  | EvMainStartDispatcher =>
    match main s with
    | MStartWorkers w =>
      if w <=? numWorkers c then Blocked
      else Next (set_main (set_dispatcher s (DFor 1)) MStartCollector)
    | _ => Blocked
    end
  | EvMainStartCollector =>
    match main s with
    | MStartCollector => Next (set_main (set_collector s (CFor 1)) MWait)
    | _ => Blocked
    end
  | EvMainWaited =>
    match main s with
    | MWait => if wg s =? 0 then Next (set_main s MCloseResults) else Blocked
    | _ => Blocked
    end
  | EvMainCloseResults =>
    match main s with
    | MCloseResults =>
      if results_closed s then Panicked CloseOfClosedChannel
      else Next (set_main (set_results_closed s) MSelect)
    | _ => Blocked
    end
  | EvMainDone =>
    match main s, collector s with
    | MSelect, CFor r =>
      if r <=? numJobs c then Blocked
      else Next (main_return (print (set_collector s CExit) AllCollected))
    | _, _ => Blocked
    end
  | EvMainCancelled =>
    match main s with
    | MSelect =>
      if ctx_done (ctx s) then Next (main_return (print s MainTimeout))
      else Blocked
    | _ => Blocked
    end
  | EvWorkerCancelled i =>
    match workers s !! i with
    | Some w =>
      match wpc w with
      | WSelect =>
        if ctx_done (ctx s)
        then worker_return (print s (WorkerCancelled (wid w))) i w
        else Blocked
      | _ => Blocked
      end
    | None => Blocked
    end
  | EvWorkerJob i =>
    match workers s !! i, dispatcher s with
    | Some w, DFor j =>
      match wpc w with
      | WSelect =>
        if (j <=? numJobs c) && negb (jobs_closed s)
        then Next (set_dispatcher (set_worker s i w (WSleep {| ID := j |}))
                     (DFor (int_add j 1)))
        else Blocked
      | _ => Blocked
      end
    | _, _ => Blocked
    end
  | EvWorkerJobsClosed i =>
    match workers s !! i with
    | Some w =>
      match wpc w with
      | WSelect =>
        if jobs_closed s
        then worker_return (print s (WorkerJobsClosed (wid w))) i w
        else Blocked
      | _ => Blocked
      end
    | None => Blocked
    end
  | EvWorkerWake i =>
    match workers s !! i with
    | Some w =>
      match wpc w with
      | WSleep job => Next (set_worker s i w (WSend job))
      | _ => Blocked
      end
    | None => Blocked
    end
  | EvWorkerResult i =>
    match workers s !! i, collector s with
    | Some w, CFor r =>
      match wpc w with
      | WSend job =>
        if (r <=? numJobs c) && negb (results_closed s)
        then Next (set_collector (set_worker s i w (WPrint job))
                     (CPrint r (result_of job)))
        else Blocked
      | _ => Blocked
      end
    | _, _ => Blocked
    end
  | EvWorkerSendClosed i =>
    match workers s !! i with
    | Some w =>
      match wpc w with
      | WSend job =>
        if results_closed s then Panicked SendOnClosedChannel else Blocked
      | _ => Blocked
      end
    | None => Blocked
    end
  | EvWorkerPrinted i =>
    match workers s !! i with
    | Some w =>
      match wpc w with
      | WPrint job =>
        Next (set_worker (print s (WorkerProcessed (wid w) (ID job))) i w WSelect)
      | _ => Blocked
      end
    | None => Blocked
    end
  | EvDispatcherSendClosed =>
    match dispatcher s with
    | DFor j =>
      if (j <=? numJobs c) && jobs_closed s
      then Panicked SendOnClosedChannel else Blocked
    | _ => Blocked
    end
  | EvDispatcherClose =>
    match dispatcher s with
    | DFor j =>
      if j <=? numJobs c then Blocked
      else if jobs_closed s then Panicked CloseOfClosedChannel
      else Next (set_dispatcher (set_jobs_closed s) DExit)
    | _ => Blocked
    end
  | EvCollectorClosed =>
    match collector s with
    | CFor r =>
      if (r <=? numJobs c) && results_closed s
      then Next (set_collector s (CPrint r {| JobID := 0; Value := 0 |}))
      else Blocked
    | _ => Blocked
    end
  | EvCollectorPrinted =>
    match collector s with
    | CPrint r res =>
      Next (set_collector (print s (ResultLine (JobID res) (Value res)))
              (CFor (int_add r 1)))
    | _ => Blocked
    end
  | EvCollectorCancelled =>
    match collector s with
    | CFor r =>
      if (r <=? numJobs c) && ctx_done (ctx s)
      then Next (set_collector (print s CollectionCancelled) CExit)
      else Blocked
    | _ => Blocked
    end
  end.

(** The state right after [context.WithTimeout]: nothing started yet. *)
Definition init (c : Config) : State :=
  {| ctx := WithTimeout (timeout c); jobs_closed := false; results_closed := false;
     wg := 0; main := MStartWorkers 1; workers := [];
     dispatcher := DIdle; collector := CIdle; stdout := [] |}.

(** A schedule is a list of events; [run] plays it. *)
Fixpoint run (c : Config) (s : State) (t : list Event) : Outcome :=
  match t with
  | [] => Next s
  | e :: t' =>
    match step c s e with
    | Next s' => run c s' t'
    | o => o
    end
  end.

Definition reachable (c : Config) (s : State) : Prop :=
  exists t, run c (init c) t = Next s.

(** *** Results received, jobs held, workers alive *)

(** The results printed by the collector, oldest first. *)
Definition printed_results (o : list Output) : list Result :=
  flat_map (fun l => match l with
                     | ResultLine j v => [ {| JobID := j; Value := v |} ]
                     | _ => []
                     end) o.

(** The results the collector has received so far: those it has printed
    and the one it is about to print. *)
Definition collected (s : State) : list Result :=
  printed_results (stdout s) ++
  match collector s with CPrint _ res => [res] | _ => [] end.

(** The job a worker has taken and not yet turned into a sent result. *)
Definition holds (k : Z) (w : Worker) : nat :=
  match wpc w with
  | WSleep job | WSend job => if decide (ID job = k) then 1 else 0
  | _ => 0
  end.

Definition held_count (k : Z) (ws : list Worker) : nat := sum_list_with (holds k) ws.

Definition emitted_count (k : Z) (s : State) : nat :=
  count_occ Z.eq_dec (map JobID (collected s)) k.

(** Workers that have not returned yet. *)
Definition alive (w : Worker) : nat :=
  match wpc w with WExit => 0 | _ => 1 end.

Definition live (ws : list Worker) : nat := sum_list_with alive ws.

(** One more than the number of jobs sent on [jobs] so far. *)
Definition next_job (c : Config) (s : State) : Z :=
  match dispatcher s with
  | DIdle => 1
  | DFor j => j
  | DExit => numJobs c + 1
  end.

(** The constants of the program fit: at least one worker and one job, and
    no counter or product of the run leaves the range of [int]. *)
Definition valid_config (c : Config) : Prop :=
  1 <= numWorkers c < int_max /\ 1 <= numJobs c /\ 2 * numJobs c <= int_max.

(** No event can happen: every goroutine is blocked or has returned. *)
Definition stuck (c : Config) (s : State) : Prop :=
  forall e, step c s e = Blocked.

(** *** Invariants of the reachable states *)

(** Where the goroutines are relative to each other: main starts them in
    order, the two channels are closed by their one closer at its one
    place, the loop counters stay in range and the collector's counter
    counts the Result lines. *)
Record Shape (c : Config) (s : State) : Prop := {
  shape_main :
    match main s with
    | MStartWorkers w =>
      1 <= w <= numWorkers c + 1 /\ Z.of_nat (length (workers s)) = w - 1 /\
      dispatcher s = DIdle /\ collector s = CIdle
    | MStartCollector =>
      Z.of_nat (length (workers s)) = numWorkers c /\
      dispatcher s <> DIdle /\ collector s = CIdle
    | _ =>
      Z.of_nat (length (workers s)) = numWorkers c /\
      dispatcher s <> DIdle /\ collector s <> CIdle
    end;
  shape_results_closed :
    results_closed s = match main s with MSelect | MExit => true | _ => false end;
  shape_jobs_closed :
    jobs_closed s = match dispatcher s with DExit => true | _ => false end;
  shape_dispatcher :
    match dispatcher s with DFor j => 1 <= j <= numJobs c + 1 | _ => True end;
  shape_collector :
    match collector s with
    | CIdle => printed_results (stdout s) = []
    | CFor r =>
      1 <= r <= numJobs c + 1 /\
      Z.of_nat (length (printed_results (stdout s))) = r - 1
    | CPrint r _ =>
      1 <= r <= numJobs c /\
      Z.of_nat (length (printed_results (stdout s))) = r - 1
    | CExit => Z.of_nat (length (printed_results (stdout s))) <= numJobs c
    end;
  shape_ctx :
    match main s with MExit => ctx s <> Active | _ => ctx s <> Canceled end
}.

(** The WaitGroup counts the workers that have not returned, and every
    job id sent so far is either held by one worker or was received once by
    the collector. *)
Record Counts (c : Config) (s : State) : Prop := {
  count_wg : wg s = Z.of_nat (live (workers s));
  count_waited :
    match main s with
    | MCloseResults | MSelect | MExit => wg s = 0
    | _ => True
    end;
  count_held0 : held_count 0 (workers s) = 0%nat;
  count_account : forall k, k <> 0 ->
    (held_count k (workers s) + emitted_count k s)%nat =
    if decide (1 <= k < next_job c s) then 1%nat else 0%nat;
  count_values : forall r, r ∈ collected s -> Value r = JobID r * 2
}.

(** While the deadline has not passed: no worker returns before [jobs] is
    closed, the collector receives no zero value from a closed channel and
    returns only through its send on [done]. *)
Record Calm (c : Config) (s : State) : Prop := {
  calm_alive :
    ctx s <> DeadlineExceeded -> jobs_closed s = false ->
    live (workers s) = length (workers s);
  calm_genuine :
    ctx s <> DeadlineExceeded -> forall r, r ∈ collected s -> JobID r <> 0;
  calm_collector :
    ctx s <> DeadlineExceeded -> collector s = CExit -> main s = MExit;
  calm_exit :
    main s = MExit -> ctx s = Canceled ->
    collector s = CExit /\
    Z.of_nat (length (printed_results (stdout s))) = numJobs c
}.

Definition Inv (c : Config) (s : State) : Prop :=
  Shape c s /\ Counts c s /\ Calm c s.

(** *** The lines of the collector and of main *)

Definition is_cancel_marker (o : Output) : bool :=
  match o with CollectionCancelled => true | _ => false end.

Definition is_all_collected (o : Output) : bool :=
  match o with AllCollected => true | _ => false end.

Definition count_lines (p : Output -> bool) (o : list Output) : nat :=
  length (List.filter p o).

(** The collector has returned exactly when one of the two lines
    Result collection cancelled and All results collected. is printed. *)
Record Marks (c : Config) (s : State) : Prop := {
  marks_collector :
    (count_lines is_cancel_marker (stdout s) +
     count_lines is_all_collected (stdout s))%nat =
    match collector s with CExit => 1%nat | _ => 0%nat end;
  marks_all :
    count_lines is_all_collected (stdout s) = 1%nat ->
    main s = MExit /\
    Z.of_nat (length (printed_results (stdout s))) = numJobs c
}.

(** [%d]. *)
Definition show_int (z : Z) : string := NilZero.string_of_int (Z.to_int z).

(** The text of a line, as the format strings of the program give it
    (without the final newline). *)
Definition render (o : Output) : string :=
  match o with
  | WorkerCancelled id => "Worker " +:+ show_int id +:+ ": cancelled"
  | WorkerJobsClosed id => "Worker " +:+ show_int id +:+ ": jobs channel closed"
  | WorkerProcessed id job =>
    "Worker " +:+ show_int id +:+ ": processed job " +:+ show_int job
  | ResultLine job value =>
    "Result: job " +:+ show_int job +:+ " -> " +:+ show_int value
  | CollectionCancelled => "Result collection cancelled"
  | AllCollected => "All results collected."
  | MainTimeout => "Main: context timeout or cancelled."
  end.

(** *** Histories and measures *)

(** A job goes through the channel: the send of the dispatcher met by the
    receive of a worker. *)
Definition is_job_send (e : Event) : bool :=
  match e with EvWorkerJob _ => true | _ => false end.

(** The number of sends on [jobs] in a schedule. *)
Definition sends (t : list Event) : nat := length (List.filter is_job_send t).

(** [close(jobs)] as an event of a schedule. *)
Definition is_close (e : Event) : bool :=
  match e with EvDispatcherClose => true | _ => false end.

(** The number of times [close(jobs)] happens in a schedule. *)
Definition closes (t : list Event) : nat := length (List.filter is_close t).

(** What a schedule says about the channel [jobs]. *)
Definition jobs_history (c : Config) (t : list Event) (s : State) : Prop :=
  Z.of_nat (sends t) + 1 = next_job c s /\
  ((jobs_closed s = true) <-> (EvDispatcherClose ∈ t)).

(** What a schedule says about the context. *)
Definition deadline_history (c : Config) (t : list Event) (s : State) : Prop :=
  ctx s = DeadlineExceeded <-> (timeout c <= 0 \/ EvTimeout ∈ t).

(** What is left to do: every event makes it smaller. *)
Definition worker_measure (w : Worker) : nat :=
  match wpc w with
  | WExit => 0 | WSelect => 1 | WPrint _ => 2 | WSend _ => 3 | WSleep _ => 4
  end.

Definition measure (c : Config) (s : State) : Z :=
  (if ctx_done (ctx s) then 0 else 1)
  + match main s with
    | MStartWorkers w => 2 * (numWorkers c + 1 - w) + 5
    | MStartCollector => 4
    | MWait => 3
    | MCloseResults => 2
    | MSelect => 1
    | MExit => 0
    end
  + match dispatcher s with
    | DIdle => 4 * numJobs c + 1
    | DFor j => 4 * (numJobs c + 1 - j) + 1
    | DExit => 0
    end
  + match collector s with
    | CIdle => 2 * numJobs c + 1
    | CFor r => 2 * (numJobs c + 1 - r) + 1
    | CPrint r _ => 2 * (numJobs c + 1 - r)
    | CExit => 0
    end
  + Z.of_nat (sum_list_with worker_measure (workers s)).

(** The events of worker [i]. *)
Definition worker_events (i : nat) : list Event :=
  [EvWorkerCancelled i; EvWorkerJob i; EvWorkerJobsClosed i; EvWorkerWake i;
   EvWorkerResult i; EvWorkerSendClosed i; EvWorkerPrinted i].

(** The receive of the worker's select can proceed: a send is waiting, or
    the channel is closed. *)
Definition job_ready (c : Config) (s : State) : bool :=
  jobs_closed s ||
  match dispatcher s with DFor j => j <=? numJobs c | _ => false end.

(** *** Some schedules of the program *)

(** One job, from its receive to the two Printf, with worker [i]. *)
Definition job_cycle (i : nat) : list Event :=
  [EvWorkerJob i; EvWorkerWake i; EvWorkerResult i; EvCollectorPrinted;
   EvWorkerPrinted i].

(** main starts the three workers, the dispatcher and the collector. *)
Definition start_all : list Event :=
  [EvMainStartWorker; EvMainStartWorker; EvMainStartWorker;
   EvMainStartDispatcher; EvMainStartCollector].

(** All ten jobs sent, worked on, collected and printed, in turn by the
    workers 1, 2, 3, 1, ... *)
Definition jobs_sent : list Event :=
  start_all ++ flat_map job_cycle [0; 1; 2; 0; 1; 2; 0; 1; 2; 0]%nat.

(** The workers see the closed channel and return; main collects. *)
Definition after_close : list Event :=
  [EvWorkerJobsClosed 0; EvWorkerJobsClosed 1; EvWorkerJobsClosed 2;
   EvMainWaited; EvMainCloseResults; EvMainDone].

(** A run of the program as shipped in which the timer never fires. *)
Definition full_run : list Event :=
  jobs_sent ++ EvDispatcherClose :: after_close.

(** The state a schedule ends in. *)
Definition end_of (o : Outcome) (s0 : State) : State :=
  match o with Next s => s | _ => s0 end.

Definition full_run_end : State :=
  Eval vm_compute in
    end_of (run main_config (init main_config) full_run) (init main_config).

(** All jobs done and [jobs] just closed: the three workers are at their
    select. *)
Definition jobs_just_closed : State :=
  Eval vm_compute in
    end_of (run main_config (init main_config) (jobs_sent ++ [EvDispatcherClose]))
      (init main_config).

(** The program as shipped: the three workers take the jobs 1, 2 and 3,
    the dispatcher waits with job 4; the first result is collected and
    printed; the deadline passes; worker 1 prints and is back at its
    select. *)
Definition busy_then_timeout : list Event :=
  start_all ++
  [EvWorkerJob 0; EvWorkerJob 1; EvWorkerJob 2; EvWorkerWake 0;
   EvWorkerResult 0; EvCollectorPrinted; EvTimeout; EvWorkerPrinted 0].

Definition both_ready : State :=
  Eval vm_compute in
    end_of (run main_config (init main_config) busy_then_timeout)
      (init main_config).

(** The deadline passes before any job is taken, and the collector
    returns. *)
Definition cancelled_at_once : list Event :=
  start_all ++ [EvTimeout; EvCollectorCancelled].

(** One result is collected and printed, then the deadline passes and the
    collector returns. *)
Definition cancelled_after_one : list Event :=
  start_all ++
  [EvWorkerJob 0; EvWorkerWake 0; EvWorkerResult 0; EvCollectorPrinted;
   EvTimeout; EvCollectorCancelled].

Definition none_collected : State :=
  Eval vm_compute in
    end_of (run main_config (init main_config) cancelled_at_once)
      (init main_config).

Definition one_collected : State :=
  Eval vm_compute in
    end_of (run main_config (init main_config) cancelled_after_one)
      (init main_config).

(** Worker 2 has taken job 2 and sleeps when the deadline passes; the
    collector is then still printing the first result. *)
Definition timeout_mid_job : list Event :=
  start_all ++
  [EvWorkerJob 0; EvWorkerJob 1; EvWorkerWake 0; EvWorkerResult 0; EvTimeout].

Definition mid_job : State :=
  Eval vm_compute in
    end_of (run main_config (init main_config) timeout_mid_job)
      (init main_config).

(** The program with the timeout set to 0. *)
Definition zero_timeout_config : Config :=
  {| numWorkers := 3; numJobs := 10; timeout := 0 |}.

(** Worker 1 takes job 1 although the context is done; the collector and
    the two other workers take their cancellation case; worker 1 wakes up
    and wants to send its result. *)
Definition deadlock_run : list Event :=
  start_all ++
  [EvWorkerJob 0; EvCollectorCancelled; EvWorkerCancelled 1;
   EvWorkerCancelled 2; EvWorkerWake 0].

Definition deadlocked : State :=
  Eval vm_compute in
    end_of (run zero_timeout_config (init zero_timeout_config) deadlock_run)
      (init zero_timeout_config).

(** The deadline passes before any job is taken; the collector and the
    three workers return, main closes results and returns through its
    [ctx.Done()] case, while the dispatcher still waits in the send of
    job 1. *)
Definition cancelled_to_exit : list Event :=
  start_all ++
  [EvTimeout; EvCollectorCancelled;
   EvWorkerCancelled 0; EvWorkerCancelled 1; EvWorkerCancelled 2;
   EvMainWaited; EvMainCloseResults; EvMainCancelled].

Definition exit_without_close : State :=
  Eval vm_compute in
    end_of (run main_config (init main_config) cancelled_to_exit)
      (init main_config).

(** *** The lines of the workers and of main *)

(** The "processed job k" lines printed so far. *)
Definition is_processed (k : Z) (o : Output) : bool :=
  match o with WorkerProcessed _ job => bool_decide (job = k) | _ => false end.

(** A worker that has sent the result of job [k] and not yet printed. *)
Definition printing (k : Z) (w : Worker) : nat :=
  match wpc w with
  | WPrint job => if decide (ID job = k) then 1 else 0
  | _ => 0
  end.

(** More invariants: the workers are numbered 1, 2, ... in the order they
    were started; a zero Result is received only from the closed channel;
    the results received are those of the jobs that were, or are being,
    reported as processed. *)
Record Ledger (c : Config) (s : State) : Prop := {
  ledger_wid : forall i w, workers s !! i = Some w -> wid w = Z.of_nat i + 1;
  ledger_zero :
    results_closed s = false -> forall r, r ∈ collected s -> JobID r <> 0;
  ledger_processed : forall k, k <> 0 ->
    (count_lines (is_processed k) (stdout s) + sum_list_with (printing k) (workers s))%nat
    = emitted_count k s;
  ledger_processed0 :
    (count_lines (is_processed 0) (stdout s) + sum_list_with (printing 0) (workers s))%nat
    = 0%nat;
  ledger_ids : forall id k, WorkerProcessed id k ∈ stdout s ->
    1 <= id <= Z.of_nat (length (workers s))
}.

(** *** The lines of main and the last line of each worker *)

Definition is_main_timeout (o : Output) : bool :=
  match o with MainTimeout => true | _ => false end.

(** The line a worker prints when it returns. *)
Definition is_exit_line (id : Z) (o : Output) : bool :=
  match o with
  | WorkerCancelled i | WorkerJobsClosed i => bool_decide (i = id)
  | _ => false
  end.

Record Finals (c : Config) (s : State) : Prop := {
  finals_count :
    (count_lines is_all_collected (stdout s) + count_lines is_main_timeout (stdout s))%nat
    = if exited (main s) then 1%nat else 0%nat;
  finals_timeout :
    (1 <= count_lines is_main_timeout (stdout s))%nat -> ctx s = DeadlineExceeded;
  finals_exit : forall i w, workers s !! i = Some w ->
    (count_lines (is_exit_line (wid w)) (stdout s) + alive w)%nat = 1%nat;
  finals_ids : forall id, (1 <= count_lines (is_exit_line id) (stdout s))%nat ->
    1 <= id <= Z.of_nat (length (workers s))
}.

(** The deadline passes before any job is taken, the workers return, main
    closes results, and the collector, still in its loop, reads the zero
    value from the closed channel and prints it. *)
Definition zero_result_run : list Event :=
  start_all ++
  [EvTimeout; EvWorkerCancelled 0; EvWorkerCancelled 1; EvWorkerCancelled 2;
   EvMainWaited; EvMainCloseResults; EvCollectorClosed; EvCollectorPrinted].

Definition zero_result_printed : State :=
  Eval vm_compute in
    end_of (run main_config (init main_config) zero_result_run) (init main_config).

(** *** Arithmetic of [int] *)

Lemma int_wrap_small z : int_min <= z <= int_max -> int_wrap z = z.
Proof.
  unfold int_wrap, int_min, int_max. intros Hz.
  rewrite Z.mod_small by lia. lia.
Qed.

Lemma int_add_small a b : int_min <= a + b <= int_max -> int_add a b = a + b.
Proof. apply int_wrap_small. Qed.

Lemma int_mul_small a b : int_min <= a * b <= int_max -> int_mul a b = a * b.
Proof. apply int_wrap_small. Qed.

(** *** Schedules and reachable states *)

Lemma run_app c s t1 t2 :
  run c s (t1 ++ t2) =
  match run c s t1 with Next s' => run c s' t2 | o => o end.
Proof.
  revert s. induction t1 as [|e t1 IH]; intros s; cbn; [done|].
  destruct (step c s e); auto.
Qed.

Lemma run_app_inv c s t1 t2 s' :
  run c s (t1 ++ t2) = Next s' ->
  exists s1, run c s t1 = Next s1 /\ run c s1 t2 = Next s'.
Proof.
  rewrite run_app. destruct (run c s t1) as [| |s1]; try done. eauto.
Qed.

Lemma reachable_init c : reachable c (init c).
Proof. by exists []. Qed.

Lemma reachable_step c s e s' :
  reachable c s -> step c s e = Next s' -> reachable c s'.
Proof.
  intros [t Ht] Hs. exists (t ++ [e]). rewrite run_app, Ht. cbn. by rewrite Hs.
Qed.

Lemma run_reachable c t s : run c (init c) t = Next s -> reachable c s.
Proof. intros H. by exists t. Qed.

Lemma reachable_induction c (P : State -> Prop) :
  P (init c) ->
  (forall s e s', reachable c s -> P s -> step c s e = Next s' -> P s') ->
  forall s, reachable c s -> P s.
Proof.
  intros Hi Hs s [t Ht]. revert s Ht.
  induction t as [|e t IH] using rev_ind; intros s Ht.
  - cbn in Ht. by simplify_eq.
  - rewrite run_app in Ht. destruct (run c (init c) t) as [| |s0] eqn:E; try done.
    cbn in Ht. destruct (step c s0 e) eqn:E2; try done. simplify_eq.
    eapply Hs; [by exists t| |done]. by apply IH.
Qed.

(** *** One step, case by case *)

Ltac bool_hyps :=
  repeat match goal with
  | H : _ && _ = true |- _ => apply andb_true_iff in H as [? ?]
  | H : _ && _ = false |- _ => apply andb_false_iff in H
  | H : negb _ = true |- _ => apply negb_true_iff in H
  | H : negb _ = false |- _ => apply negb_false_iff in H
  | H : (_ <=? _) = true |- _ => apply Z.leb_le in H
  | H : (_ <=? _) = false |- _ => apply Z.leb_gt in H
  | H : (_ <? _) = true |- _ => apply Z.ltb_lt in H
  | H : (_ <? _) = false |- _ => apply Z.ltb_ge in H
  | H : (_ =? _) = true |- _ => apply Z.eqb_eq in H
  | H : (_ =? _) = false |- _ => apply Z.eqb_neq in H
  end.

(** Inversion of one step: the cases of [step] that give a next state. *)
Ltac step_cases Hstep :=
  match type of Hstep with
  | step _ ?s ?e = Next _ =>
    destruct s; destruct e;
    unfold step, worker_return, main_return in Hstep; cbn in Hstep;
    repeat (case_match; simplify_eq; try done);
    bool_hyps
  end.

Lemma printed_results_app o1 o2 :
  printed_results (o1 ++ o2) = printed_results o1 ++ printed_results o2.
Proof. unfold printed_results. apply flat_map_app. Qed.

Lemma printed_results_snoc o l :
  printed_results (o ++ [l]) =
  printed_results o ++
  match l with ResultLine j v => [ {| JobID := j; Value := v |} ] | _ => [] end.
Proof. rewrite printed_results_app. cbn. by rewrite app_nil_r. Qed.

Arguments printed_results : simpl never.

Lemma Result_eta r : {| JobID := JobID r; Value := Value r |} = r.
Proof. by destruct r. Qed.

Lemma sum_list_with_insert {A} (f : A -> nat) (l : list A) i x y :
  l !! i = Some x ->
  (sum_list_with f (<[i:=y]> l) + f x = sum_list_with f l + f y)%nat.
Proof.
  revert i. induction l as [|a l IH]; intros [|i] Hi; simplify_eq/=; [lia|].
  specialize (IH _ Hi). lia.
Qed.

Lemma sum_list_with_lookup {A} (f : A -> nat) (l : list A) i x :
  l !! i = Some x -> (f x <= sum_list_with f l)%nat.
Proof.
  revert i. induction l as [|a l IH]; intros [|i] Hi; simplify_eq/=; [lia|].
  specialize (IH _ Hi). lia.
Qed.

Ltac worker_sums :=
  unfold held_count, live in *;
  repeat match goal with
  | Hl : ?ws !! ?i = Some ?w |- context [sum_list_with ?f (<[?i:=?y]> ?ws)] =>
    let E := fresh "E" in
    pose proof (sum_list_with_insert f ws i w y Hl) as E;
    pose proof (sum_list_with_lookup f ws i w Hl);
    generalize dependent (sum_list_with f (<[i:=y]> ws)); intros
  end;
  rewrite ?sum_list_with_app in *;
  unfold holds, alive in *; cbn in *;
  repeat match goal with H : wpc _ = _ |- _ => rewrite H in * end.

(** *** The invariants hold in every reachable state *)

Lemma shape_init c : valid_config c -> Shape c (init c).
Proof.
  intros (HN & HM & HM2). split; cbn; try done.
  - repeat split; lia.
  - unfold WithTimeout; by destruct (timeout c <=? 0).
Qed.

Lemma shape_step c s e s' :
  valid_config c -> Shape c s -> step c s e = Next s' -> Shape c s'.
Proof.
  intros (HN & HM & HM2) HS Hstep.
  unfold int_max in *.
  step_cases Hstep.
  all: destruct HS as [Hm Hrc Hjc Hd Hco Hctx]; cbn in *.
  all: split; cbn.
  all: rewrite ?printed_results_snoc, ?length_app, ?length_insert; cbn.
  all: rewrite ?app_nil_r.
  all: rewrite ?int_add_small by (unfold int_min, int_max; lia).
  all: try done; try lia. 
  all: try (destruct ctx0; done).
  all: try (repeat case_match; intuition (try done; try lia)).
  all: rewrite Hco; cbn; lia.
Qed.

Lemma counts_init c : Counts c (init c).
Proof.
  split; cbn; try done.
  - intros k Hk. unfold next_job; cbn. case_decide; [lia|done].
  - intros r Hr. inversion Hr.
Qed.

Lemma counts_step c s e s' :
  valid_config c -> Shape c s -> Counts c s -> step c s e = Next s' -> Counts c s'.
Proof.
  intros (HN & HM & HM2) HS HC Hstep.
  unfold int_max in *.
  step_cases Hstep.
  all: destruct HS as [Hm Hrc Hjc Hd Hco Hctx], HC as [Hwg Hwt Hh0 Hacc Hval]; cbn in *.
  all: destruct_and?; simplify_eq.
  all: split; cbn.
  all: try done.
  all: unfold emitted_count, collected, next_job in *; cbn in *.
  all: rewrite ?printed_results_snoc, ?app_nil_r, ?Result_eta; cbn.
  all: rewrite ?app_nil_r in *.
  all: try done.
  all: try (worker_sums; lia).
  all: try (intros k Hk; specialize (Hacc k Hk);
            rewrite ?map_app, ?count_occ_app in *; cbn in *;
            rewrite ?int_add_small by (unfold int_min, int_max; lia);
            worker_sums; repeat case_decide; repeat case_match; simplify_eq; lia).
  all: try (match goal with Hl : _ !! _ = Some _ |- match ?m with _ => _ end =>
              pose proof (sum_list_with_lookup alive _ _ _ Hl);
              worker_sums; destruct m; try done; lia end).
  all: try (intros r0 [Hr| ->%list_elem_of_singleton]%elem_of_app; [by apply Hval|]).
  - worker_sums. case_decide; lia.
  - cbn. destruct (decide (ID job = 0)) as [->|Hk]; [done|].
    specialize (Hacc _ Hk).
    match goal with Hl : _ !! _ = Some ?w, Hw : wpc _ = WSend _ |- _ =>
      pose proof (sum_list_with_lookup (holds (ID job)) _ _ _ Hl) as Hle;
      assert (holds (ID job) w = 1%nat) as Hh
        by (unfold holds; rewrite Hw, decide_True; done)
    end.
    case_decide; [|lia].
    apply int_mul_small; unfold int_min, int_max.
    destruct dispatcher0; lia.
  - done.
Qed.

Lemma holds_alive k w : (holds k w <= alive w)%nat.
Proof. unfold holds, alive. destruct (wpc w); try case_decide; lia. Qed.

Lemma held_count_live k ws : (held_count k ws <= live ws)%nat.
Proof.
  unfold held_count, live. induction ws as [|w ws IH]; cbn; [lia|].
  pose proof (holds_alive k w). lia.
Qed.

Lemma pigeonhole (l : list Z) (m : Z) :
  (forall k, 1 <= k <= m -> (1 <= count_occ Z.eq_dec l k)%nat) ->
  m <= Z.of_nat (length l).
Proof.
  intros H. destruct (decide (0 <= m)) as [Hm|]; [|lia].
  assert (length (seqZ 1 m) <= length l)%nat as Hlen.
  { apply NoDup_incl_length.
    - apply NoDup_ListNoDup, NoDup_seqZ.
    - intros k Hk%list_elem_of_In%elem_of_seqZ.
      apply (count_occ_In Z.eq_dec). specialize (H k). lia. }
  rewrite length_seqZ in Hlen. lia.
Qed.

Lemma all_emitted c s :
  Shape c s -> Counts c s ->
  live (workers s) = 0%nat -> jobs_closed s = true ->
  numJobs c <= Z.of_nat (length (collected s)).
Proof.
  intros [_ _ Hjc _ _ _] [_ _ _ Hacc _] Hlive Hclosed.
  rewrite <- (length_map JobID). apply pigeonhole. intros k Hk.
  specialize (Hacc k ltac:(lia)). pose proof (held_count_live k (workers s)).
  unfold next_job in Hacc. destruct (dispatcher s); try congruence.
  rewrite decide_True in Hacc by lia. unfold emitted_count in Hacc. lia.
Qed.

Lemma calm_init c : Calm c (init c).
Proof. split; cbn; try done. intros _ r Hr. inversion Hr. Qed.

Lemma shape_running c s :
  Shape c s -> exited (main s) = false -> ctx s <> Canceled.
Proof. intros [_ _ _ _ _ H] Hm. by destruct (main s). Qed.

Lemma shape_waited c s :
  Shape c s -> Counts c s -> results_closed s = true -> live (workers s) = 0%nat.
Proof.
  intros [_ Hrc _ _ _ _] [Hwg Hwt _ _ _] Hcl. rewrite Hcl in Hrc.
  destruct (main s); try done; lia.
Qed.

Lemma calm_step c s e s' :
  valid_config c -> Shape c s -> Counts c s -> Calm c s ->
  step c s e = Next s' -> Calm c s'.
Proof.
  intros (HN & HM & HM2) HS HC HK Hstep.
  assert (Hall := all_emitted c s HS HC).
  assert (Hrun := shape_running c s HS).
  assert (Hwaited := shape_waited c s HS HC).
  unfold int_max in *.
  step_cases Hstep.
  all: destruct HS as [Hm Hrc Hjc Hd Hco Hctx], HC as [Hwg Hwt Hh0 Hacc Hval],
         HK as [Hal Hgen Hcol Hex]; cbn in *.
  all: destruct_and?; simplify_eq.
  all: split; cbn.
  all: try done.
  all: unfold collected in *; cbn in *.
  all: rewrite ?printed_results_snoc, ?app_nil_r, ?Result_eta, ?length_insert, ?length_app; cbn.
  all: rewrite ?app_nil_r in *.
  all: try done.
  all: try (intros Hx1 Hx2; specialize (Hal Hx1 Hx2); worker_sums; lia).
  all: try (intros; destruct ctx0; cbn in *; simplify_eq; try done; try lia;
            intuition (simplify_eq; try done; try lia); fail).
  - intros Hx r0 Hr0. apply Hgen; [by destruct ctx0|done].
  - intros Hx r0 [Hr| ->%list_elem_of_singleton]%elem_of_app; [by apply Hgen|].
    cbn. intros Hk.
    match goal with Hl : _ !! _ = Some ?w, Hw : wpc _ = WSend _ |- _ =>
      pose proof (sum_list_with_lookup (holds 0) _ _ _ Hl) as Hle;
      assert (holds 0 w = 1%nat) as Hh
        by (unfold holds; rewrite Hw, decide_True; done)
    end.
    lia.
  - intros Hx. exfalso. specialize (Hwaited ltac:(done)). specialize (Hal Hx).
    destruct main0; try done. destruct Hm as (Hlen & _ & _).
    destruct dispatcher0; try (specialize (Hal eq_refl); lia).
    specialize (Hall Hwaited eq_refl). lia.
Qed.

Lemma inv_reachable c s : valid_config c -> reachable c s -> Inv c s.
Proof.
  intros Hc. apply reachable_induction.
  - split; [|split]; [by apply shape_init|apply counts_init|apply calm_init].
  - intros s0 e s1 _ (HS & HC & HK) Hstep. split; [|split].
    + eapply shape_step; eauto.
    + eapply counts_step; eauto.
    + eapply calm_step; eauto.
Qed.

Lemma no_panic c s e p :
  valid_config c -> Inv c s -> step c s e <> Panicked p.
Proof.
  intros Hc (HS & HC & HK) Hstep.
  assert (Hwaited := shape_waited c s HS HC).
  destruct HS as [Hm Hrc Hjc Hd Hco Hctx], HC as [Hwg Hwt Hh0 Hacc Hval].
  destruct s; destruct e; unfold step, worker_return in Hstep; cbn in *.
  all: repeat (case_match; simplify_eq; try done); bool_hyps.
  all: try match goal with Hl : _ !! _ = Some ?w |- _ =>
         pose proof (sum_list_with_lookup alive _ _ _ Hl) as Hle;
         unfold alive at 1 in Hle
       end.
  all: repeat match goal with H : wpc _ = _ |- _ => rewrite H in * end.
  all: unfold live in *; try specialize (Hwaited eq_refl); try lia.
Qed.

(** *** What the collector has received *)

Lemma collected_length c s :
  valid_config c -> Shape c s -> Z.of_nat (length (collected s)) <= numJobs c.
Proof.
  intros (_ & HM & _) [_ _ _ _ Hco _]. unfold collected. rewrite length_app.
  destruct (collector s); cbn in *; destruct_and?; try rewrite Hco; cbn; lia.
Qed.

Lemma emitted_at_most_once c s k :
  Counts c s -> k <> 0 -> (emitted_count k s <= 1)%nat.
Proof.
  intros [_ _ _ Hacc _] Hk. specialize (Hacc k Hk). case_decide; lia.
Qed.

Lemma collected_ids c s :
  Shape c s -> Counts c s -> Calm c s -> ctx s <> DeadlineExceeded ->
  NoDup (map JobID (collected s)) /\
  forall k, k ∈ map JobID (collected s) -> 1 <= k < next_job c s.
Proof.
  intros HS HC HK Hctx.
  assert (Hnz : 0 ∉ map JobID (collected s)).
  { intros (r & Hr0 & Hr)%list_elem_of_fmap.
    by apply (calm_genuine c s HK Hctx r Hr). }
  split.
  - apply NoDup_ListNoDup, (NoDup_count_occ Z.eq_dec). intros k.
    destruct (decide (k = 0)) as [->|Hk].
    + rewrite list_elem_of_In in Hnz. apply (count_occ_not_In Z.eq_dec) in Hnz. lia.
    + apply (emitted_at_most_once c s k HC Hk).
  - intros k Hk. assert (k <> 0) as Hk0 by (by intros ->).
    pose proof (count_account c s HC k Hk0) as Hacc.
    rewrite list_elem_of_In in Hk. apply (count_occ_In Z.eq_dec) in Hk.
    unfold emitted_count in Hacc. case_decide; lia.
Qed.

Lemma next_job_bound c s :
  valid_config c -> Shape c s -> 1 <= next_job c s <= numJobs c + 1.
Proof.
  intros (_ & HM & _) [_ _ _ Hd _ _]. unfold next_job.
  destruct (dispatcher s); lia.
Qed.

Lemma exit_jobs_closed c s :
  valid_config c -> Inv c s -> main s = MExit -> ctx s <> DeadlineExceeded ->
  jobs_closed s = true.
Proof.
  intros (HN & _) (HS & HC & HK) Hm Hctx.
  destruct (jobs_closed s) eqn:E; [done|].
  pose proof (calm_alive c s HK Hctx E) as Hal.
  pose proof (shape_main c s HS) as Hsm. rewrite Hm in Hsm.
  pose proof (count_waited c s HC) as Hw. pose proof (count_wg c s HC) as Hwg.
  rewrite Hm in Hw. lia.
Qed.

Lemma exit_state_complete c s :
  valid_config c -> Inv c s -> main s = MExit -> ctx s <> DeadlineExceeded ->
  Z.of_nat (length (collected s)) = numJobs c /\
  NoDup (map JobID (collected s)) /\
  (forall r, r ∈ collected s -> 1 <= JobID r <= numJobs c) /\
  (forall k, 1 <= k <= numJobs c -> k ∈ map JobID (collected s)).
Proof.
  intros Hc (HS & HC & HK) Hm Hctx.
  destruct (collected_ids c s HS HC HK Hctx) as [Hnd Hrange].
  pose proof (next_job_bound c s Hc HS) as Hnj.
  assert (ctx s = Canceled) as Hcan.
  { pose proof (shape_ctx c s HS) as H. rewrite Hm in H. by destruct (ctx s). }
  destruct (calm_exit c s HK Hm Hcan) as [Hco Hlen].
  assert (Z.of_nat (length (collected s)) = numJobs c) as Hlen'.
  { unfold collected. by rewrite Hco, app_nil_r. }
  split; [done|]. split; [done|]. split.
  - intros r Hr. assert (JobID r ∈ map JobID (collected s)) as Hin
      by (apply list_elem_of_fmap; eauto).
    specialize (Hrange _ Hin). lia.
  - intros k Hk.
    assert (live (workers s) = 0%nat) as Hlive.
    { pose proof (count_waited c s HC) as Hw. pose proof (count_wg c s HC) as Hwg.
      rewrite Hm in Hw. lia. }
    assert (jobs_closed s = true) as Hcl.
    { destruct (jobs_closed s) eqn:E; [done|].
      pose proof (calm_alive c s HK Hctx E) as Hal.
      pose proof (shape_main c s HS) as Hsm. rewrite Hm in Hsm.
      destruct Hc as (HN & _). lia. }
    pose proof (shape_jobs_closed c s HS) as Hjc. rewrite Hcl in Hjc.
    pose proof (count_account c s HC k ltac:(lia)) as Hacc.
    pose proof (held_count_live k (workers s)).
    unfold next_job in Hacc. destruct (dispatcher s); try done.
    rewrite decide_True in Hacc by lia.
    apply list_elem_of_In, (count_occ_In Z.eq_dec).
    unfold emitted_count in Hacc. lia.
Qed.

(** *** Every schedule is finite, and without cancellation none gets stuck *)

Lemma measure_nonneg c s : valid_config c -> Shape c s -> 0 <= measure c s.
Proof.
  intros (HN & HM & HM2) [Hm _ _ Hd Hco _]. unfold measure.
  destruct (ctx_done _), (main s), (dispatcher s), (collector s); lia.
Qed.

Lemma measure_step c s e s' :
  valid_config c -> Shape c s -> step c s e = Next s' ->
  measure c s' < measure c s.
Proof.
  intros (HN & HM & HM2) HS Hstep.
  unfold int_max in *.
  step_cases Hstep.
  all: destruct HS as [Hm Hrc Hjc Hd Hco Hctx]; cbn in *.
  all: destruct_and?; simplify_eq.
  all: unfold measure; cbn.
  all: rewrite ?int_add_small by (unfold int_min, int_max; lia).
  all: repeat match goal with
       | Hl : ?ws !! ?i = Some ?w |- context [sum_list_with ?f (<[?i:=?y]> ?ws)] =>
         pose proof (sum_list_with_insert f ws i w y Hl);
         generalize dependent (sum_list_with f (<[i:=y]> ws)); intros
       end.
  all: rewrite ?sum_list_with_app; unfold worker_measure in *; cbn in *.
  all: repeat match goal with H : wpc _ = _ |- _ => rewrite H in * end.
  all: try lia.
  all: destruct ctx0; cbn in *; try done; repeat case_match; lia.
Qed.

Lemma run_length c s t s' :
  valid_config c -> Shape c s -> run c s t = Next s' ->
  Shape c s' /\ Z.of_nat (length t) <= measure c s - measure c s'.
Proof.
  intros Hc. revert s. induction t as [|e t IH]; intros s HS Hrun; cbn in *.
  - simplify_eq. split; [done|lia].
  - destruct (step c s e) as [| |s1] eqn:Hstep; try done.
    pose proof (measure_step c s e s1 Hc HS Hstep).
    destruct (IH s1) as [HS' Hlen]; [by eapply shape_step|done|].
    split; [done|lia].
Qed.

Lemma workers_cases (ws : list Worker) :
  (exists i w, ws !! i = Some w /\ wpc w <> WExit) \/ live ws = 0%nat.
Proof.
  induction ws as [|w ws [(i & w' & Hi & Hw)|IH]].
  - by right.
  - left. by exists (S i), w'.
  - destruct (wpc w) eqn:E.
    5:{ right. unfold live in *. cbn. unfold alive at 1. rewrite E. lia. }
    all: left; exists 0%nat, w; split; [done|congruence].
Qed.

Lemma pigeonhole_room (l : list Z) (k m : Z) :
  NoDup l -> (forall x, x ∈ l -> 1 <= x <= m) -> k ∉ l -> 1 <= k <= m ->
  Z.of_nat (length l) < m.
Proof.
  intros Hnd Hin Hk Hkm.
  assert (length (k :: l) <= length (seqZ 1 m))%nat as Hlen.
  { apply NoDup_incl_length.
    - apply NoDup_ListNoDup. by constructor.
    - intros x Hx%list_elem_of_In. apply list_elem_of_In, elem_of_seqZ.
      apply elem_of_cons in Hx as [->|Hx]; [lia|]. specialize (Hin x Hx). lia. }
  rewrite length_seqZ in Hlen. cbn in Hlen. lia.
Qed.

Lemma send_room c s i w job r :
  valid_config c -> Inv c s -> ctx s <> DeadlineExceeded ->
  workers s !! i = Some w -> wpc w = WSend job -> collector s = CFor r ->
  r <= numJobs c.
Proof.
  intros Hc (HS & HC & HK) Hctx Hi Hw Hco.
  destruct (collected_ids c s HS HC HK Hctx) as [Hnd Hrange].
  pose proof (next_job_bound c s Hc HS) as Hnj.
  assert (holds (ID job) w = 1%nat) as Hh
    by (unfold holds; rewrite Hw, decide_True; done).
  pose proof (sum_list_with_lookup (holds (ID job)) _ _ _ Hi) as Hle.
  assert (ID job <> 0) as Hk0.
  { intros Hk0. pose proof (count_held0 c s HC) as H0. unfold held_count in H0.
    rewrite Hk0 in Hle, Hh. lia. }
  pose proof (count_account c s HC _ Hk0) as Hacc. unfold held_count in Hacc.
  assert (ID job ∉ map JobID (collected s)) as Hnotin.
  { rewrite list_elem_of_In. intros Hin%(count_occ_In Z.eq_dec).
    unfold emitted_count in Hacc. case_decide; lia. }
  assert (1 <= ID job <= numJobs c) as Hkr by (case_decide; lia).
  pose proof (pigeonhole_room _ (ID job) (numJobs c) Hnd) as Hroom.
  rewrite length_map in Hroom.
  specialize (Hroom ltac:(intros x Hx; specialize (Hrange x Hx); lia) Hnotin Hkr).
  pose proof (shape_collector c s HS) as Hsc. rewrite Hco in Hsc.
  unfold collected in Hroom. rewrite Hco, app_nil_r in Hroom. lia.
Qed.

Lemma progress c s :
  valid_config c -> Inv c s -> ctx s = Active ->
  exists e s', e <> EvTimeout /\ step c s e = Next s'.
Proof.
  intros Hc HI Hctx. pose proof Hc as (HN & HM & HM2).
  pose proof HI as (HS & HC & HK).
  assert (Hne : ctx s <> DeadlineExceeded) by congruence.
  pose proof (send_room c s) as Hroom.
  pose proof (all_emitted c s HS HC) as Hall.
  pose proof (shape_waited c s HS HC) as Hwaited.
  destruct HS as [Hm Hrc Hjc Hd Hco Hcx], HC as [Hwg Hwt Hh0 Hacc Hval],
    HK as [Hal Hgen Hcol Hex].
  specialize (Hal Hne). specialize (Hcol Hne).
  destruct (workers_cases (workers s)) as [(i & w & Hi & Hw)|Hlive].
  - pose proof (sum_list_with_lookup alive _ _ _ Hi) as Hle.
    assert (alive w = 1%nat) as Ha by (unfold alive; destruct (wpc w); done).
    unfold live in *.
    destruct (main s) eqn:Em; try done.
    + (* still starting workers *)
      destruct (decide (w0 <= numWorkers c)).
      * eexists EvMainStartWorker, _. split; [done|]. unfold step. rewrite Em. cbn.
        by rewrite (proj2 (Z.leb_le _ _)) by done.
      * eexists EvMainStartDispatcher, _. split; [done|]. unfold step. rewrite Em. cbn.
        by rewrite (proj2 (Z.leb_gt _ _)) by lia.
    + eexists EvMainStartCollector, _. split; [done|]. unfold step. by rewrite Em.
    + (* main waits *)
      destruct (wpc w) eqn:Ew; try done.
      * destruct (dispatcher s) as [|j|] eqn:Ed; [by destruct Hm as (_ & ? & _)| |].
        -- destruct (decide (j <= numJobs c)).
           ++ eexists (EvWorkerJob i), _. split; [done|]. unfold step.
              rewrite Em, Hi, Ed, Ew, Hjc. cbn.
              by rewrite (proj2 (Z.leb_le _ _)) by done.
           ++ eexists EvDispatcherClose, _. split; [done|]. unfold step.
              rewrite Em, Ed, Hjc. cbn.
              by rewrite (proj2 (Z.leb_gt _ _)) by lia.
        -- eexists (EvWorkerJobsClosed i), _. split; [done|].
           unfold step, worker_return. rewrite Em, Hi, Ew, Hjc. cbn.
           by rewrite (proj2 (Z.ltb_ge _ _)) by lia.
      * eexists (EvWorkerWake i), _. split; [done|]. unfold step.
        by rewrite Em, Hi, Ew.
      * destruct (collector s) as [|r|r res|] eqn:Ec;
          [by destruct Hm as (_ & _ & ?)| | |by specialize (Hcol eq_refl)].
        -- eexists (EvWorkerResult i), _. split; [done|]. unfold step.
           rewrite Em, Hi, Ec, Ew, Hrc. cbn.
           by rewrite (proj2 (Z.leb_le _ _)) by (eapply Hroom; eauto).
        -- eexists EvCollectorPrinted, _. split; [done|]. unfold step.
           by rewrite Em, Ec.
      * eexists (EvWorkerPrinted i), _. split; [done|]. unfold step.
        by rewrite Em, Hi, Ew.
    + lia.
    + lia.
  - destruct (main s) eqn:Em; try done.
    + destruct (decide (w <= numWorkers c)).
      * eexists EvMainStartWorker, _. split; [done|]. unfold step. rewrite Em. cbn.
        by rewrite (proj2 (Z.leb_le _ _)) by done.
      * eexists EvMainStartDispatcher, _. split; [done|]. unfold step. rewrite Em. cbn.
        by rewrite (proj2 (Z.leb_gt _ _)) by lia.
    + eexists EvMainStartCollector, _. split; [done|]. unfold step. by rewrite Em.
    + eexists EvMainWaited, _. split; [done|]. unfold step. rewrite Em. cbn.
      by rewrite (proj2 (Z.eqb_eq _ _)) by lia.
    + eexists EvMainCloseResults, _. split; [done|]. unfold step.
      by rewrite Em, Hrc.
    + destruct (collector s) as [|r|r res|] eqn:Ec;
        [by destruct Hm as (_ & _ & ?)| | |by specialize (Hcol eq_refl)].
      * assert (jobs_closed s = true) as Hcl.
        { destruct (jobs_closed s); [done|]. specialize (Hal eq_refl).
          destruct Hm as (? & _). lia. }
        specialize (Hall Hlive Hcl). unfold collected in Hall.
        rewrite Ec, app_nil_r in Hall.
        eexists EvMainDone, _. split; [done|]. unfold step. rewrite Em, Ec. cbn.
        by rewrite (proj2 (Z.leb_gt _ _)) by lia.
      * eexists EvCollectorPrinted, _. split; [done|]. unfold step.
        by rewrite Em, Ec.
Qed.

Lemma deadline_history_run c t s :
  run c (init c) t = Next s -> deadline_history c t s.
Proof.
  unfold deadline_history.
  revert s. induction t as [|e t IH] using rev_ind; intros s Hrun.
  - cbn in Hrun. simplify_eq. cbn. unfold WithTimeout.
    destruct (Z.leb_spec (timeout c) 0); split; try done; try (by left).
    intros [?|Hin]; [lia|inversion Hin].
  - apply run_app_inv in Hrun as (s1 & Hrun1 & Hrun2). cbn in Hrun2.
    destruct (step c s1 e) as [| |s2] eqn:Hstep; try done. simplify_eq.
    specialize (IH s1 Hrun1). rewrite elem_of_app, list_elem_of_singleton.
    step_cases Hstep; cbn in *.
    all: try (destruct ctx0; cbn in *; intuition congruence).
    all: intuition congruence.
Qed.

(** *** The results of a run *)

Lemma main_config_valid : valid_config main_config.
Proof. unfold valid_config, int_max. cbn. lia. Qed.

Lemma full_run_runs : run main_config (init main_config) full_run = Next full_run_end.
Proof. vm_compute. reflexivity. Qed.

(** C1: in every run the collector has received at most numJobs results and
    at most one for each job id that is sent; a run that ends without the
    deadline having passed ends with exactly numJobs results, with distinct
    job ids, each one the id of a job that was sent.  Such a run exists from
    every state the program can be in: while the context is live some
    goroutine can always act, and no schedule is longer than
    2 numWorkers + 6 numJobs + 8 events.  The deadline has passed exactly
    when the timeout was not positive or the timer has fired. *)
Theorem collector_receives_each_job_once (c : Config) (t : list Event) (s : State) :
  valid_config c -> run c (init c) t = Next s ->
  Z.of_nat (length (collected s)) <= numJobs c /\
  (forall k, 1 <= k <= numJobs c -> (emitted_count k s <= 1)%nat) /\
  (main s = MExit -> ctx s <> DeadlineExceeded ->
     Z.of_nat (length (collected s)) = numJobs c /\
     NoDup (map JobID (collected s)) /\
     forall r, r ∈ collected s -> 1 <= JobID r <= numJobs c) /\
  (ctx s = Active -> exists e s', e <> EvTimeout /\ step c s e = Next s') /\
  Z.of_nat (length t) <= 2 * numWorkers c + 6 * numJobs c + 8 /\
  (ctx s = DeadlineExceeded <-> (timeout c <= 0 \/ EvTimeout ∈ t)).
Proof.
  intros Hc Hrun.
  assert (reachable c s) as Hreach by (by exists t).
  pose proof (inv_reachable c s Hc Hreach) as HI.
  pose proof HI as (HS & HC & HK).
  split; [by apply collected_length|].
  split; [intros k Hk; apply (emitted_at_most_once c s k HC); lia|].
  split.
  { intros Hm Hctx.
    destruct (exit_state_complete c s Hc HI Hm Hctx) as (? & ? & ? & _). done. }
  split; [by apply progress|].
  destruct (run_length c (init c) t s Hc (shape_init c Hc) Hrun) as [_ Hlen].
  pose proof (measure_nonneg c s Hc HS) as Hpos.
  assert (measure c (init c) <= 2 * numWorkers c + 6 * numJobs c + 8) as Hi.
  { unfold measure. cbn. destruct (ctx_done _); lia. }
  split; [lia|]. by apply deadline_history_run.
Qed.

Lemma collector_receives_each_job_once_witness :
  valid_config main_config /\
  run main_config (init main_config) full_run = Next full_run_end /\
  main full_run_end = MExit /\ ctx full_run_end <> DeadlineExceeded /\
  Z.of_nat (length (collected full_run_end)) = 10 /\
  NoDup (map JobID (collected full_run_end)).
Proof.
  pose proof (collector_receives_each_job_once main_config full_run full_run_end
                main_config_valid full_run_runs) as (_ & _ & Hexit & _).
  assert (main full_run_end = MExit) as Hm by reflexivity.
  assert (ctx full_run_end <> DeadlineExceeded) as Hctx by discriminate.
  destruct (Hexit Hm Hctx) as (Hlen & Hnd & _).
  split; [exact main_config_valid|]. split; [exact full_run_runs|].
  split; [exact Hm|]. split; [exact Hctx|]. split; [exact Hlen|exact Hnd].
Defined.

(** C2: every result the collector receives has Value = JobID * 2; a run
    that ends without the deadline having passed has received the job ids
    1, ..., numJobs, each once; with 3 workers and 10 jobs these are 10
    results, with the job ids 1 to 10. *)
Theorem result_value_is_twice_job_id (c : Config) (t : list Event) (s : State) :
  valid_config c -> run c (init c) t = Next s ->
  (forall r, r ∈ collected s -> Value r = JobID r * 2) /\
  (main s = MExit -> ctx s <> DeadlineExceeded ->
     map JobID (collected s) ≡ₚ seqZ 1 (numJobs c)) /\
  (c = main_config -> main s = MExit -> ctx s <> DeadlineExceeded ->
     length (collected s) = 10%nat /\
     (forall k, k ∈ map JobID (collected s) <-> 1 <= k <= 10) /\
     forall r, r ∈ collected s -> Value r = JobID r * 2).
Proof.
  intros Hc Hrun.
  assert (reachable c s) as Hreach by (by exists t).
  pose proof (inv_reachable c s Hc Hreach) as HI.
  pose proof HI as (HS & HC & HK).
  assert (Hperm : main s = MExit -> ctx s <> DeadlineExceeded ->
                  map JobID (collected s) ≡ₚ seqZ 1 (numJobs c)).
  { intros Hm Hctx.
    destruct (exit_state_complete c s Hc HI Hm Hctx) as (Hlen & Hnd & Hr & Hall).
    apply NoDup_Permutation; [done|apply NoDup_seqZ|].
    intros k. rewrite elem_of_seqZ. split.
    - intros (r & -> & Hin)%list_elem_of_fmap. specialize (Hr r Hin). lia.
    - intros Hk. apply Hall. lia. }
  split; [apply (count_values c s HC)|]. split; [done|].
  intros -> Hm Hctx. specialize (Hperm Hm Hctx). split; [|split].
  - rewrite <- (length_map JobID), Hperm. reflexivity.
  - intros k. rewrite Hperm, elem_of_seqZ. cbn. lia.
  - apply (count_values _ s HC).
Qed.

Lemma result_value_is_twice_job_id_witness :
  valid_config main_config /\
  run main_config (init main_config) full_run = Next full_run_end /\
  map JobID (collected full_run_end) ≡ₚ seqZ 1 10 /\
  forall r, r ∈ collected full_run_end -> Value r = JobID r * 2.
Proof.
  pose proof (result_value_is_twice_job_id main_config full_run full_run_end
                main_config_valid full_run_runs) as (Hval & Hperm & _).
  split; [exact main_config_valid|]. split; [exact full_run_runs|].
  split; [|exact Hval]. apply Hperm; [reflexivity|discriminate].
Defined.

(** *** The lines of the collector *)

Lemma count_lines_snoc p o l :
  count_lines p (o ++ [l]) = (count_lines p o + if p l then 1 else 0)%nat.
Proof.
  unfold count_lines. rewrite List.filter_app, length_app. cbn.
  by destruct (p l).
Qed.

Lemma count_lines_elem_of p o l :
  p l = true -> l ∈ o -> (1 <= count_lines p o)%nat.
Proof.
  intros Hp Hin. unfold count_lines.
  assert (In l (List.filter p o)) as Hf.
  { apply List.filter_In. by rewrite <- list_elem_of_In. }
  destruct (List.filter p o); [done|cbn; lia].
Qed.

Arguments count_lines : simpl never.

Lemma marks_init c : Marks c (init c).
Proof. split; cbn; [done|]. unfold count_lines. cbn. lia. Qed.

Lemma marks_step c s e s' :
  valid_config c -> Shape c s -> Marks c s -> step c s e = Next s' -> Marks c s'.
Proof.
  intros (HN & HM & HM2) HS HM' Hstep.
  step_cases Hstep.
  all: destruct HS as [Hm Hrc Hjc Hd Hco Hctx], HM' as [Hmc Hma]; cbn in *.
  all: split; cbn.
  all: rewrite ?count_lines_snoc, ?printed_results_snoc, ?app_nil_r; cbn.
  all: rewrite ?Nat.add_0_r.
  all: try done.
  all: try (intros Hx; exfalso; destruct collector0; lia).
  all: try (intros Hx; by destruct (Hma ltac:(lia))).
  all: try (destruct_and?; simplify_eq; lia).
  intros _. bool_hyps. split; [done|lia].
Qed.

(** C3, as the code has it: when the context is done the collector at its
    select can take the cancellation case; it then prints the one line
    Result collection cancelled and returns, without sending on done.  In
    every run that line is printed at most once, and when it is there the
    results received are the Result lines printed before, at most numJobs
    of them, and All results collected. is not printed; when
    All results collected. is printed there are numJobs Result lines and no
    cancellation line.  The line does not say how many results there are. *)
Theorem collector_cancel_line (c : Config) (t : list Event) (s : State) :
  valid_config c -> run c (init c) t = Next s ->
  (forall r, exited (main s) = false -> collector s = CFor r ->
     r <= numJobs c -> ctx_done (ctx s) = true ->
     exists s', step c s EvCollectorCancelled = Next s' /\
       stdout s' = stdout s ++ [CollectionCancelled] /\
       collector s' = CExit /\ collected s' = collected s) /\
  (count_lines is_cancel_marker (stdout s) <= 1)%nat /\
  (CollectionCancelled ∈ stdout s ->
     collector s = CExit /\ (AllCollected ∉ stdout s) /\
     collected s = printed_results (stdout s) /\
     Z.of_nat (length (collected s)) <= numJobs c) /\
  (AllCollected ∈ stdout s ->
     (CollectionCancelled ∉ stdout s) /\
     Z.of_nat (length (printed_results (stdout s))) = numJobs c) /\
  render CollectionCancelled = "Result collection cancelled".
Proof.
  intros Hc Hrun.
  assert (reachable c s) as Hreach by (by exists t).
  pose proof (inv_reachable c s Hc Hreach) as (HS & HC & HK).
  assert (Marks c s) as [Hmc Hma].
  { revert Hreach. apply reachable_induction; [apply marks_init|].
    intros s0 e s1 Hr0 HM0 Hstep.
    destruct (inv_reachable c s0 Hc Hr0) as (HS0 & _). by eapply marks_step. }
  assert (Hcan : CollectionCancelled ∈ stdout s ->
                 count_lines is_cancel_marker (stdout s) = 1%nat /\
                 count_lines is_all_collected (stdout s) = 0%nat /\
                 collector s = CExit).
  { intros Hin%(count_lines_elem_of is_cancel_marker); [|done].
    destruct (collector s); try lia. split; [lia|]. split; [lia|done]. }
  assert (Hall : AllCollected ∈ stdout s ->
                 count_lines is_cancel_marker (stdout s) = 0%nat /\
                 count_lines is_all_collected (stdout s) = 1%nat).
  { intros Hin%(count_lines_elem_of is_all_collected); [|done].
    destruct (collector s); lia. }
  split; [|split; [|split; [|split]]].
  - intros r Hm Hco Hr Hdone. eexists. unfold step. rewrite Hm, Hco, Hdone.
    rewrite (proj2 (Z.leb_le _ _)) by done. cbn. split; [done|].
    split; [done|]. split; [done|]. unfold collected. cbn.
    by rewrite Hco, printed_results_snoc, !app_nil_r.
  - destruct (collector s); lia.
  - intros Hin. destruct (Hcan Hin) as (Hone & Hzero & Hco).
    split; [done|]. split.
    { intros Hin'. destruct (Hall Hin'). lia. }
    split; [unfold collected; by rewrite Hco, app_nil_r|].
    by apply collected_length.
  - intros Hin. destruct (Hall Hin) as (Hzero & Hone). split.
    { intros Hin'. destruct (Hcan Hin') as (? & _). lia. }
    by destruct (Hma Hone).
  - reflexivity.
Qed.

(** C3 as stated fails: the collector is cancelled once with no result and
    once with one result of ten, and the line it prints on cancellation is
    the same text both times; nothing it prints says how many of the jobs
    were completed. *)
Lemma cancel_line_has_no_count :
  run main_config (init main_config) cancelled_at_once = Next none_collected /\
  run main_config (init main_config) cancelled_after_one = Next one_collected /\
  collector none_collected = CExit /\ collector one_collected = CExit /\
  length (collected none_collected) = 0%nat /\
  length (collected one_collected) = 1%nat /\
  map render (stdout none_collected) = ["Result collection cancelled"] /\
  map render (stdout one_collected) =
    ["Result: job 1 -> 2"; "Result collection cancelled"].
Proof. repeat split; vm_compute; reflexivity. Qed.

Lemma cancelled_after_one_runs :
  run main_config (init main_config) cancelled_after_one = Next one_collected.
Proof. vm_compute. reflexivity. Qed.

Lemma collector_cancel_line_witness :
  valid_config main_config /\
  run main_config (init main_config) cancelled_after_one = Next one_collected /\
  CollectionCancelled ∈ stdout one_collected /\
  collector one_collected = CExit /\
  collected one_collected = printed_results (stdout one_collected).
Proof.
  pose proof (collector_cancel_line main_config cancelled_after_one one_collected
                main_config_valid cancelled_after_one_runs)
    as (_ & _ & Hmark & _).
  assert (CollectionCancelled ∈ stdout one_collected) as Hin.
  { apply list_elem_of_In. cbn. right. left. reflexivity. }
  destruct (Hmark Hin) as (Hco & _ & Hcol & _).
  split; [exact main_config_valid|]. split; [exact cancelled_after_one_runs|].
  split; [exact Hin|]. split; [exact Hco|exact Hcol].
Defined.

(** *** The select of a worker *)

Lemma alive_wg c s i w :
  Counts c s -> workers s !! i = Some w -> wpc w <> WExit -> 1 <= wg s.
Proof.
  intros HC Hi Hw. rewrite (count_wg c s HC).
  pose proof (sum_list_with_lookup alive _ _ _ Hi) as Hle.
  unfold alive at 1 in Hle. unfold live. destruct (wpc w); try done; lia.
Qed.

Lemma alive_running c s i w :
  Counts c s -> workers s !! i = Some w -> wpc w <> WExit ->
  exited (main s) = false.
Proof.
  intros HC Hi Hw. pose proof (alive_wg c s i w HC Hi Hw) as Hwg.
  pose proof (count_waited c s HC) as Hwt. destruct (main s); try done. lia.
Qed.

(** C4, as the code has it: when the context is done and a worker is at
    its select, the cancellation case can be taken, and taking it makes the
    worker print its line and return; it is the only case that can be taken
    when no job is ready.  When a job is ready as well, the receive can be
    taken too: the select has no order of preference. *)
Theorem worker_select_when_cancelled (c : Config) (s : State) (i : nat) (w : Worker) :
  valid_config c -> reachable c s ->
  workers s !! i = Some w -> wpc w = WSelect -> ctx_done (ctx s) = true ->
  (exists s', step c s (EvWorkerCancelled i) = Next s' /\
     workers s' !! i = Some {| wid := wid w; wpc := WExit |} /\
     stdout s' = stdout s ++ [WorkerCancelled (wid w)]) /\
  (job_ready c s = false ->
     forall e s', e ∈ worker_events i -> step c s e = Next s' ->
       e = EvWorkerCancelled i) /\
  (job_ready c s = true ->
     exists e s', e <> EvWorkerCancelled i /\ e ∈ worker_events i /\
       step c s e = Next s').
Proof.
  intros Hc Hreach Hi Hw Hdone.
  pose proof (inv_reachable c s Hc Hreach) as (HS & HC & HK).
  pose proof (alive_running c s i w HC Hi ltac:(congruence)) as Hm.
  pose proof (alive_wg c s i w HC Hi ltac:(congruence)) as Hwg.
  pose proof (shape_jobs_closed c s HS) as Hjc.
  assert (Hlt : (i < length (workers s))%nat) by (by eapply lookup_lt_Some).
  split; [|split].
  - eexists. unfold step, worker_return. rewrite Hm, Hi, Hw, Hdone. cbn.
    rewrite (proj2 (Z.ltb_ge _ _)) by lia. split; [done|]. cbn.
    by rewrite list_lookup_insert_eq.
  - intros Hready e s' He Hstep. unfold worker_events in He. unfold job_ready in Hready.
    apply orb_false_iff in Hready as [Hcl Hsend].
    repeat (apply elem_of_cons in He as [->|He]); [..|by inversion He]; try done.
    all: unfold step, worker_return in Hstep; rewrite Hm, Hi, ?Hw, ?Hcl in Hstep.
    all: repeat (case_match; simplify_eq; try done).
    rewrite Hsend in *. done.
  - intros Hready. unfold job_ready in Hready.
    destruct (jobs_closed s) eqn:Hcl.
    + exists (EvWorkerJobsClosed i). eexists. split; [done|].
      split; [unfold worker_events; set_solver|].
      unfold step, worker_return. rewrite Hm, Hi, Hw, Hcl. cbn.
      by rewrite (proj2 (Z.ltb_ge _ _)) by lia.
    + cbn in Hready. destruct (dispatcher s) as [|j|] eqn:Hd; try done.
      exists (EvWorkerJob i). eexists. split; [done|].
      split; [unfold worker_events; set_solver|].
      unfold step. rewrite Hm, Hi, Hd, Hw, Hcl, Hready. done.
Qed.

(** C4 as stated fails: the context is done, job 4 is waiting to be
    received, worker 1 is at its select, and the select takes the job. *)
Lemma worker_takes_job_after_cancel :
  run main_config (init main_config) busy_then_timeout = Next both_ready /\
  ctx_done (ctx both_ready) = true /\
  dispatcher both_ready = DFor 4 /\
  workers both_ready !! 0%nat = Some {| wid := 1; wpc := WSelect |} /\
  exists s', step main_config both_ready (EvWorkerJob 0) = Next s' /\
    workers s' !! 0%nat = Some {| wid := 1; wpc := WSleep {| ID := 4 |} |}.
Proof.
  split; [vm_compute; reflexivity|]. split; [reflexivity|].
  split; [reflexivity|]. split; [reflexivity|].
  eexists. split; vm_compute; reflexivity.
Qed.

Lemma both_ready_reachable : reachable main_config both_ready.
Proof. exists busy_then_timeout. vm_compute. reflexivity. Qed.

Lemma worker_select_when_cancelled_witness :
  (exists s', step main_config both_ready (EvWorkerCancelled 0) = Next s' /\
     workers s' !! 0%nat = Some {| wid := 1; wpc := WExit |} /\
     stdout s' = stdout both_ready ++ [WorkerCancelled 1]) /\
  exists e s', e <> EvWorkerCancelled 0 /\ e ∈ worker_events 0 /\
     step main_config both_ready e = Next s'.
Proof.
  pose proof (worker_select_when_cancelled main_config both_ready 0
                {| wid := 1; wpc := WSelect |} main_config_valid
                both_ready_reachable eq_refl eq_refl eq_refl)
    as (Hcancel & _ & Hjob).
  split; [exact Hcancel|]. apply Hjob. reflexivity.
Defined.

(** C7: a worker at its select when [jobs] is closed can take the receive,
    which reports !ok: it prints its line, calls wg.Done() and returns,
    without a panic; it cannot take a job any more, and whatever it does
    next it returns. *)
Theorem worker_returns_when_jobs_closed (c : Config) (s : State) (i : nat) (w : Worker) :
  valid_config c -> reachable c s ->
  workers s !! i = Some w -> wpc w = WSelect -> jobs_closed s = true ->
  (exists s', step c s (EvWorkerJobsClosed i) = Next s' /\
     workers s' !! i = Some {| wid := wid w; wpc := WExit |} /\
     wg s' = wg s - 1 /\
     stdout s' = stdout s ++ [WorkerJobsClosed (wid w)]) /\
  step c s (EvWorkerJob i) = Blocked /\
  (forall e s', e ∈ worker_events i -> step c s e = Next s' ->
     workers s' !! i = Some {| wid := wid w; wpc := WExit |}).
Proof.
  intros Hc Hreach Hi Hw Hcl.
  pose proof (inv_reachable c s Hc Hreach) as (HS & HC & HK).
  pose proof (alive_running c s i w HC Hi ltac:(congruence)) as Hm.
  pose proof (alive_wg c s i w HC Hi ltac:(congruence)) as Hwg.
  pose proof (shape_jobs_closed c s HS) as Hjc. rewrite Hcl in Hjc.
  assert (Hlt : (i < length (workers s))%nat) by (by eapply lookup_lt_Some).
  split; [|split].
  - eexists. unfold step, worker_return. rewrite Hm, Hi, Hw, Hcl. cbn.
    rewrite (proj2 (Z.ltb_ge _ _)) by lia. split; [done|]. cbn.
    by rewrite list_lookup_insert_eq.
  - unfold step. rewrite Hm, Hi. destruct (dispatcher s); try done.
  - intros e s' He Hstep. unfold worker_events in He.
    repeat (apply elem_of_cons in He as [->|He]); [..|by inversion He].
    all: unfold step, worker_return in Hstep; rewrite Hm, Hi, ?Hw in Hstep.
    all: repeat (case_match; simplify_eq; try done).
    all: cbn; by rewrite list_lookup_insert_eq.
Qed.

Lemma jobs_just_closed_reachable : reachable main_config jobs_just_closed.
Proof. exists (jobs_sent ++ [EvDispatcherClose]). vm_compute. reflexivity. Qed.

Lemma worker_returns_when_jobs_closed_witness :
  jobs_closed jobs_just_closed = true /\
  workers jobs_just_closed !! 0%nat = Some {| wid := 1; wpc := WSelect |} /\
  (exists s', step main_config jobs_just_closed (EvWorkerJobsClosed 0) = Next s' /\
     workers s' !! 0%nat = Some {| wid := 1; wpc := WExit |} /\
     wg s' = wg jobs_just_closed - 1 /\
     stdout s' = stdout jobs_just_closed ++ [WorkerJobsClosed 1]) /\
  step main_config jobs_just_closed (EvWorkerJob 0) = Blocked.
Proof.
  pose proof (worker_returns_when_jobs_closed main_config jobs_just_closed 0
                {| wid := 1; wpc := WSelect |} main_config_valid
                jobs_just_closed_reachable eq_refl eq_refl eq_refl)
    as (Hret & Hjob & _).
  split; [reflexivity|]. split; [reflexivity|]. split; [exact Hret|exact Hjob].
Defined.

(** *** The send of a result is not guarded by the context *)

(** C5 on the code: the deadline passes while worker 2 sleeps on job 2;
    the worker has no cancellation case to take there, wakes up, sends the
    result of job 2, and the collector receives it. *)
Theorem result_sent_after_cancellation :
  run main_config (init main_config) timeout_mid_job = Next mid_job /\
  ctx mid_job = DeadlineExceeded /\
  workers mid_job !! 1%nat = Some {| wid := 2; wpc := WSleep {| ID := 2 |} |} /\
  step main_config mid_job (EvWorkerCancelled 1) = Blocked /\
  exists s',
    run main_config mid_job [EvWorkerWake 1; EvCollectorPrinted; EvWorkerResult 1]
      = Next s' /\
    collected s' = [ {| JobID := 1; Value := 2 |}; {| JobID := 2; Value := 4 |} ].
Proof.
  split; [vm_compute; reflexivity|]. split; [reflexivity|].
  split; [reflexivity|]. split; [reflexivity|].
  eexists. split; vm_compute; reflexivity.
Qed.

(** C8 on the code: with the timeout 0 the program can reach a state in
    which main waits in wg.Wait(), worker 1 is at its send on results with
    nobody left to receive, the dispatcher is at its send of job 2 with
    nobody left to receive, and no goroutine can ever act again. *)
Theorem zero_timeout_deadlock :
  ctx (init zero_timeout_config) = DeadlineExceeded /\
  run zero_timeout_config (init zero_timeout_config) deadlock_run
    = Next deadlocked /\
  main deadlocked = MWait /\ wg deadlocked = 1 /\
  workers deadlocked =
    [ {| wid := 1; wpc := WSend {| ID := 1 |} |};
      {| wid := 2; wpc := WExit |}; {| wid := 3; wpc := WExit |} ] /\
  dispatcher deadlocked = DFor 2 /\ collector deadlocked = CExit /\
  stuck zero_timeout_config deadlocked.
Proof.
  repeat (split; [vm_compute; reflexivity|]).
  intros e. destruct e; try reflexivity.
  all: destruct i as [|[|[|i]]]; reflexivity.
Qed.

(** *** The channel of the jobs *)

Lemma sends_app t1 t2 : sends (t1 ++ t2) = (sends t1 + sends t2)%nat.
Proof. unfold sends. by rewrite List.filter_app, length_app. Qed.

Lemma jobs_history_step c t s e s' :
  valid_config c -> Shape c s -> jobs_history c t s -> step c s e = Next s' ->
  jobs_history c (t ++ [e]) s'.
Proof.
  intros (HN & HM & HM2) HS [Hsends Hclosed] Hstep.
  unfold jobs_history. rewrite sends_app, elem_of_app, list_elem_of_singleton.
  unfold int_max in *.
  step_cases Hstep.
  all: destruct HS as [Hm Hrc Hjc Hd Hco Hctx]; cbn in *.
  all: unfold next_job, sends in *; cbn in *.
  all: rewrite ?int_add_small by (unfold int_min, int_max; lia).
  all: destruct_and?; simplify_eq.
  all: split; [try lia|try (rewrite <- Hclosed; intuition congruence)].
Qed.

Lemma jobs_history_run c t s :
  valid_config c -> run c (init c) t = Next s -> jobs_history c t s.
Proof.
  intros Hc. revert s. induction t as [|e t IH] using rev_ind; intros s Hrun.
  - cbn in Hrun. simplify_eq. split; [done|]. cbn. split; [done|].
    intros H. inversion H.
  - apply run_app_inv in Hrun as (s1 & Hrun1 & Hrun2). cbn in Hrun2.
    destruct (step c s1 e) as [| |s2] eqn:Hstep; try done. simplify_eq.
    eapply jobs_history_step; eauto.
    apply inv_reachable; [done|]. by eapply run_reachable.
Qed.

Lemma close_enabled c s s' :
  valid_config c -> Shape c s -> step c s EvDispatcherClose = Next s' ->
  jobs_closed s = false /\ next_job c s = numJobs c + 1.
Proof.
  intros Hc HS Hstep. pose proof (shape_dispatcher c s HS) as Hd.
  unfold step, next_job in *.
  repeat (case_match; simplify_eq; try done). bool_hyps.
  split; [done|lia].
Qed.

Lemma closes_app t1 t2 : closes (t1 ++ t2) = (closes t1 + closes t2)%nat.
Proof. unfold closes. by rewrite List.filter_app, length_app. Qed.

Lemma closes_step c t s e s' :
  closes t = (if jobs_closed s then 1 else 0)%nat -> step c s e = Next s' ->
  closes (t ++ [e]) = (if jobs_closed s' then 1 else 0)%nat.
Proof.
  intros Hcl Hstep. rewrite closes_app, Hcl.
  step_cases Hstep; cbn in *; try done.
  all: try (destruct jobs_closed0; done).
Qed.

Lemma closes_run c t s :
  run c (init c) t = Next s -> closes t = (if jobs_closed s then 1 else 0)%nat.
Proof.
  revert s. induction t as [|e t IH] using rev_ind; intros s Hrun.
  - cbn in Hrun. by simplify_eq.
  - apply run_app_inv in Hrun as (s1 & Hrun1 & Hrun2). cbn in Hrun2.
    destruct (step c s1 e) as [| |s2] eqn:Hstep; try done. simplify_eq.
    eapply closes_step; eauto.
Qed.

Lemma close_ready c s :
  valid_config c -> Shape c s -> next_job c s = numJobs c + 1 ->
  main s <> MExit -> jobs_closed s = false ->
  exists s', step c s EvDispatcherClose = Next s' /\ jobs_closed s' = true.
Proof.
  intros (_ & HM & _) HS Hnj Hm Hopen.
  pose proof (shape_jobs_closed c s HS) as Hjc.
  assert (exited (main s) = false) as Hex by (by destruct (main s)).
  unfold step, next_job in *. rewrite Hex.
  destruct (dispatcher s) as [|j|]; [lia| |congruence].
  subst j. rewrite (proj2 (Z.leb_gt _ _)) by lia. rewrite Hopen.
  eexists. split; [reflexivity|]. reflexivity.
Qed.

(** C6: in every run [close(jobs)] happens at most once, and when it
    happens exactly numJobs sends on [jobs] come before it and none after
    it; the channel is closed exactly when that event has happened; it has
    happened, exactly once, in every run that ends without the deadline
    having passed; once the numJobs sends are done the close is not held
    back by anything: it can happen at once; and no goroutine ever panics
    (no send on a closed channel, no second close). *)
Theorem jobs_closed_once_after_all_sends (c : Config) (t : list Event) (s : State) :
  valid_config c -> run c (init c) t = Next s ->
  (Z.of_nat (sends t) + 1 = next_job c s /\ Z.of_nat (sends t) <= numJobs c) /\
  ((jobs_closed s = true) <-> (EvDispatcherClose ∈ t)) /\
  (forall t1 t2, t = t1 ++ EvDispatcherClose :: t2 ->
     Z.of_nat (sends t1) = numJobs c /\ sends t2 = 0%nat /\
     (EvDispatcherClose ∉ t1) /\ (EvDispatcherClose ∉ t2)) /\
  (main s = MExit -> ctx s <> DeadlineExceeded -> EvDispatcherClose ∈ t) /\
  (forall e p, step c s e <> Panicked p) /\
  (closes t <= 1)%nat /\
  (main s = MExit -> ctx s <> DeadlineExceeded -> closes t = 1%nat) /\
  (Z.of_nat (sends t) = numJobs c -> main s <> MExit -> jobs_closed s = false ->
   exists s', step c s EvDispatcherClose = Next s' /\ jobs_closed s' = true).
Proof.
  intros Hc Hrun.
  pose proof (inv_reachable c s Hc (run_reachable c t s Hrun)) as HI.
  pose proof HI as (HS & _).
  destruct (jobs_history_run c t s Hc Hrun) as [Hsends Hclosed].
  pose proof (next_job_bound c s Hc HS) as Hnj.
  pose proof (closes_run c t s Hrun) as Hcount.
  split; [split; [done|lia]|]. split; [done|].
  split; [|split; [|split; [intros e p; by apply no_panic|]]].
  2:{ intros Hm Hctx. apply Hclosed. by eapply exit_jobs_closed. }
  2:{ split; [destruct (jobs_closed s); lia|]. split.
      - intros Hm Hctx. by rewrite Hcount, (exit_jobs_closed c s Hc HI Hm Hctx).
      - intros Hall Hm Hopen. apply close_ready; try done. lia. }
  intros t1 t2 ->.
  apply run_app_inv in Hrun as (s1 & Hrun1 & Hrun2). cbn in Hrun2.
  destruct (step c s1 EvDispatcherClose) as [| |s2] eqn:Hstep; try done.
  pose proof (inv_reachable c s1 Hc (run_reachable c t1 s1 Hrun1)) as (HS1 & _).
  destruct (jobs_history_run c t1 s1 Hc Hrun1) as [Hsends1 Hclosed1].
  destruct (close_enabled c s1 s2 Hc HS1 Hstep) as [Hopen Hall].
  rewrite sends_app in Hsends.
  change (sends (EvDispatcherClose :: t2)) with (sends t2) in Hsends.
  split; [lia|]. split; [lia|]. split.
  - intros Hin. apply Hclosed1 in Hin. congruence.
  - intros (t3 & t4 & ->)%list_elem_of_split.
    assert (run c (init c) ((t1 ++ EvDispatcherClose :: t3) ++ [EvDispatcherClose])
            = run c s2 (t3 ++ [EvDispatcherClose])) as Heq.
    { rewrite <- app_assoc. rewrite run_app, Hrun1. cbn. by rewrite Hstep. }
    apply run_app_inv in Hrun2 as (s3 & Hrun3 & Hrun4). cbn in Hrun4.
    destruct (step c s3 EvDispatcherClose) as [| |s4] eqn:Hstep3; try done.
    assert (run c (init c) (t1 ++ EvDispatcherClose :: t3) = Next s3) as Hr3.
    { rewrite run_app, Hrun1. cbn. by rewrite Hstep. }
    pose proof (inv_reachable c s3 Hc (run_reachable c _ s3 Hr3)) as (HS3 & _).
    destruct (jobs_history_run c _ s3 Hc Hr3) as [_ Hclosed3].
    destruct (close_enabled c s3 s4 Hc HS3 Hstep3) as [Hopen3 _].
    assert (jobs_closed s3 = true) as Hcl3.
    { apply Hclosed3. rewrite elem_of_app. right. by left. }
    congruence.
Qed.

Lemma jobs_closed_once_after_all_sends_witness :
  valid_config main_config /\
  run main_config (init main_config) full_run = Next full_run_end /\
  Z.of_nat (sends jobs_sent) = numJobs main_config /\
  sends after_close = 0%nat /\
  (EvDispatcherClose ∉ jobs_sent) /\ (EvDispatcherClose ∉ after_close) /\
  jobs_closed full_run_end = true /\
  closes full_run = 1%nat.
Proof.
  pose proof (jobs_closed_once_after_all_sends main_config full_run full_run_end
                main_config_valid full_run_runs)
    as (_ & _ & Hsplit & _ & _ & _ & Hone & _).
  destruct (Hsplit jobs_sent after_close eq_refl) as (H1 & H2 & H3 & H4).
  split; [exact main_config_valid|]. split; [exact full_run_runs|].
  split; [exact H1|]. split; [exact H2|]. split; [exact H3|].
  split; [exact H4|]. split; [reflexivity|].
  apply Hone; [reflexivity|discriminate].
Defined.

(** C6 as stated fails: in a run of the program as shipped in which the
    deadline passes before a worker takes a job, main returns while the
    dispatcher still waits in its first send; [close(jobs)] has happened
    zero times, not once. *)
Lemma cancelled_run_never_closes_jobs :
  run main_config (init main_config) cancelled_to_exit = Next exit_without_close /\
  main exit_without_close = MExit /\
  ctx exit_without_close = DeadlineExceeded /\
  closes cancelled_to_exit = 0%nat /\
  sends cancelled_to_exit = 0%nat /\
  jobs_closed exit_without_close = false /\
  dispatcher exit_without_close = DFor 1.
Proof. repeat split; vm_compute; reflexivity. Qed.

(** *** The WaitGroup, the lines printed and the shape of a deadlock *)

Lemma ledger_init c : Ledger c (init c).
Proof.
  split; cbn; try done.
  - intros _ r Hr. inversion Hr.
  - intros id k H. inversion H.
Qed.

Lemma printing_held0 (ws : list Worker) i w job :
  held_count 0 ws = 0%nat -> ws !! i = Some w ->
  wpc w = WSend job \/ wpc w = WSleep job -> ID job <> 0.
Proof.
  intros H0 Hi Hw Hk.
  pose proof (sum_list_with_lookup (holds 0) _ _ _ Hi) as Hle.
  unfold held_count in H0. unfold holds in Hle at 1.
  destruct Hw as [Hw|Hw]; rewrite Hw, decide_True in Hle by done; lia.
Qed.

Ltac ledger_sums :=
  repeat match goal with
  | Hl : ?ws !! ?i = Some ?w |- context [sum_list_with ?f (<[?i:=?y]> ?ws)] =>
    let E := fresh "E" in
    pose proof (sum_list_with_insert f ws i w y Hl) as E;
    pose proof (sum_list_with_lookup f ws i w Hl);
    generalize dependent (sum_list_with f (<[i:=y]> ws)); intros
  end;
  rewrite ?sum_list_with_app in *;
  unfold printing in *; cbn in *;
  repeat match goal with H : wpc _ = _ |- _ => rewrite H in * end.

Lemma ledger_step c s e s' :
  valid_config c -> Shape c s -> Counts c s -> Ledger c s ->
  step c s e = Next s' -> Ledger c s'.
Proof.
  intros (HN & HM & HM2) HS HC HL Hstep.
  pose proof (count_held0 c s HC) as Hh0.
  pose proof (fun i w job => printing_held0 (workers s) i w job Hh0) as Hnz.
  clear HC.
  unfold int_max in *.
  step_cases Hstep.
  all: destruct HS as [Hm Hrc Hjc Hd Hco Hctx]; cbn in *.
  all: destruct HL as [Hwid Hzero Hproc Hproc0 Hids]; cbn in *.
  all: split; cbn.
  all: unfold emitted_count, collected in *; cbn in *.
  all: rewrite ?count_lines_snoc, ?printed_results_snoc, ?app_nil_r, ?Result_eta,
         ?length_insert, ?length_app; cbn.
  all: rewrite ?app_nil_r in *.
  all: try done.
  (* the numbering of the workers *)
  all: try (intros i0 w0 Hl;
            first
              [ apply lookup_app_Some in Hl as [Hl|[Hlen Hl]];
                [by apply Hwid|];
                apply list_lookup_singleton_Some in Hl as [Hi0 <-]; cbn; lia
              | destruct (decide (i = i0)) as [->|Hne];
                [ rewrite list_lookup_insert_eq in Hl by (by eapply lookup_lt_Some);
                  simplify_eq; cbn; by apply Hwid
                | rewrite list_lookup_insert_ne in Hl by done; by apply Hwid ] ]).
  (* the lines "processed job k" *)
  all: try (intros k Hk; specialize (Hproc k Hk); revert Hproc);
       rewrite ?count_lines_snoc, ?map_app, ?count_occ_app; cbn;
       try (intros Hproc).
  all: try (ledger_sums; repeat case_decide; repeat case_bool_decide;
            simplify_eq; lia).
  (* the worker ids of the lines *)
  all: try (intros id k Hin; rewrite ?Nat2Z.inj_add;
            try (apply elem_of_app in Hin as [Hin|Hin%list_elem_of_singleton]);
            [ specialize (Hids id k Hin); lia | simplify_eq .. ]).
  all: try match goal with
    | Hl : ?ws !! ?i = Some ?w |- 1 <= wid ?w <= _ =>
      rewrite (Hwid i w Hl); apply lookup_lt_Some in Hl; lia
    end.
  (* no result with job id 0 before close(results) *)
  all: try (intros Hrc' r0 Hr0; first [discriminate Hrc' | specialize (Hzero Hrc')];
            try (apply elem_of_app in Hr0 as [Hr0|Hr0%list_elem_of_singleton]);
            [ apply Hzero; rewrite ?elem_of_app; auto | .. ]).
  all: try congruence.
  all: try (destruct Hm as (? & ? & ->); cbn in *; lia).
  all: try (destruct k; [done|cbn; lia..]).
  all: try match goal with
    | Hl : ?ws !! ?i = Some ?w, Hw : wpc ?w = WSend ?job |- _ =>
      pose proof (Hnz i w job Hl (or_introl Hw))
    end.
  all: try (simplify_eq; done).
  all: try (ledger_sums; repeat case_decide; repeat destruct (Z.eq_dec _ _);
            simplify_eq; lia).
Qed.

Lemma ledger_reachable c s : valid_config c -> reachable c s -> Ledger c s.
Proof.
  intros Hc Hr.
  cut (Inv c s /\ Ledger c s); [by intros [_ ?]|].
  revert s Hr. apply reachable_induction.
  - split; [by apply inv_reachable, reachable_init|apply ledger_init].
  - intros s0 e s1 Hr0 ((HS & HC & HK) & HL) Hstep. split.
    + apply inv_reachable; [done|]. by eapply reachable_step.
    + by eapply ledger_step.
Qed.

Lemma finals_init c : Finals c (init c).
Proof. split; cbn; try done; unfold count_lines; cbn; lia. Qed.

Lemma finals_step c s e s' :
  valid_config c -> Shape c s -> Ledger c s -> Finals c s ->
  step c s e = Next s' -> Finals c s'.
Proof.
  intros (HN & HM & HM2) HS HL HF Hstep.
  pose proof (ledger_wid c s HL) as Hwid. clear HL.
  unfold int_max in *.
  step_cases Hstep.
  all: destruct HS as [Hm Hrc Hjc Hd Hco Hctx]; cbn in *.
  all: destruct HF as [Hcount Htime Hexit Hids]; cbn in *.
  all: split; cbn.
  all: rewrite ?count_lines_snoc, ?length_insert, ?length_app; cbn.
  all: try done.
  all: try lia.
  all: try match goal with
    | He : exited ?m = false |- _ => rewrite He in Hcount
    end.
  all: try (intros; exfalso; lia).
  all: try (intros _; destruct ctx0; done).
  (* the ids of the exit lines *)
  all: try (intros id; rewrite ?count_lines_snoc, ?Nat2Z.inj_add; cbn;
            try case_bool_decide; intros Hid;
            first [ specialize (Hids id ltac:(lia)); lia
                  | subst id;
                    match goal with
                    | Hl : ?ws !! ?i = Some ?w |- 1 <= wid ?w <= _ =>
                      rewrite (Hwid i w Hl); apply lookup_lt_Some in Hl; lia
                    end ]).
  (* one exit line for each worker that returned *)
  all: try (intros i0 w0 Hl0;
            first
              [ apply lookup_app_Some in Hl0 as [Hl0|[Hlen Hl0]];
                [ by apply (Hexit i0) |];
                apply list_lookup_singleton_Some in Hl0 as [Hi0 <-]; cbn;
                destruct (count_lines (is_exit_line w) stdout0) eqn:Ecount;
                [ done | specialize (Hids w ltac:(lia)); lia ]
              | rewrite ?count_lines_snoc; cbn;
                destruct (decide (i = i0)) as [->|Hne];
                [ rewrite list_lookup_insert_eq in Hl0 by (by eapply lookup_lt_Some);
                  simplify_eq; cbn;
                  match goal with
                  | Hl : ?ws !! ?i = Some ?w |- _ =>
                    specialize (Hexit i w Hl); unfold alive in *; cbn in *;
                    repeat match goal with H : wpc _ = _ |- _ => rewrite H in * end
                  end;
                  rewrite ?bool_decide_eq_true_2 by done; lia
                | rewrite list_lookup_insert_ne in Hl0 by done;
                  specialize (Hexit i0 w0 Hl0);
                  try (rewrite bool_decide_eq_false_2;
                       [| match goal with
                          | Hl : ?ws !! ?i = Some ?w |- _ =>
                            rewrite (Hwid i w Hl), (Hwid i0 w0 Hl0); lia
                          end ]);
                  lia ]
              | rewrite ?count_lines_snoc; cbn; specialize (Hexit i0 w0 Hl0); lia ]).
Qed.

Lemma finals_reachable c s : valid_config c -> reachable c s -> Finals c s.
Proof.
  intros Hc Hr. revert s Hr. apply reachable_induction.
  - apply finals_init.
  - intros s0 e s1 Hr0 HF Hstep.
    destruct (inv_reachable c s0 Hc Hr0) as (HS & _).
    eapply finals_step; eauto using ledger_reachable.
Qed.

Lemma marks_reachable c s : valid_config c -> reachable c s -> Marks c s.
Proof.
  intros Hc Hr. revert s Hr. apply reachable_induction.
  - apply marks_init.
  - intros s0 e s1 Hr0 HM Hstep.
    destruct (inv_reachable c s0 Hc Hr0) as (HS & _).
    eapply marks_step; eauto.
Qed.

Lemma live_length (ws : list Worker) : (live ws <= length ws)%nat.
Proof.
  unfold live. induction ws as [|w ws IH]; cbn; [done|].
  unfold alive at 1. destruct (wpc w); lia.
Qed.

Lemma live_zero (ws : list Worker) i w :
  live ws = 0%nat -> ws !! i = Some w -> wpc w = WExit.
Proof.
  intros H0 Hi. pose proof (sum_list_with_lookup alive _ _ _ Hi) as Hle.
  unfold live in H0. unfold alive at 1 in Hle. destruct (wpc w); try done; lia.
Qed.

Lemma workers_length c s :
  valid_config c -> Shape c s -> Z.of_nat (length (workers s)) <= numWorkers c.
Proof.
  intros (HN & _) [Hm _ _ _ _ _]. destruct (main s); lia.
Qed.

(** The room left in the collector's loop, from the results received
    being genuine. *)
Lemma send_room_open c s i w job r :
  valid_config c -> Shape c s -> Counts c s ->
  (forall r, r ∈ collected s -> JobID r <> 0) ->
  workers s !! i = Some w -> wpc w = WSend job -> collector s = CFor r ->
  r <= numJobs c.
Proof.
  intros Hc HS HC Hgen Hi Hw Hco.
  assert (Hnz : 0 ∉ map JobID (collected s)).
  { intros (r0 & Hr0 & Hr)%list_elem_of_fmap. by apply (Hgen r0 Hr). }
  assert (Hnd : NoDup (map JobID (collected s))).
  { apply NoDup_ListNoDup, (NoDup_count_occ Z.eq_dec). intros k.
    destruct (decide (k = 0)) as [->|Hk].
    + rewrite list_elem_of_In in Hnz. apply (count_occ_not_In Z.eq_dec) in Hnz. lia.
    + apply (emitted_at_most_once c s k HC Hk). }
  assert (Hrange : forall k, k ∈ map JobID (collected s) -> 1 <= k < next_job c s).
  { intros k Hk. assert (k <> 0) as Hk0 by (by intros ->).
    pose proof (count_account c s HC k Hk0) as Hacc.
    rewrite list_elem_of_In in Hk. apply (count_occ_In Z.eq_dec) in Hk.
    unfold emitted_count in Hacc. case_decide; lia. }
  pose proof (next_job_bound c s Hc HS) as Hnj.
  assert (holds (ID job) w = 1%nat) as Hh
    by (unfold holds; rewrite Hw, decide_True; done).
  pose proof (sum_list_with_lookup (holds (ID job)) _ _ _ Hi) as Hle.
  assert (ID job <> 0) as Hk0.
  { intros Hk0. pose proof (count_held0 c s HC) as H0. unfold held_count in H0.
    rewrite Hk0 in Hle, Hh. lia. }
  pose proof (count_account c s HC _ Hk0) as Hacc. unfold held_count in Hacc.
  assert (ID job ∉ map JobID (collected s)) as Hnotin.
  { rewrite list_elem_of_In. intros Hin%(count_occ_In Z.eq_dec).
    unfold emitted_count in Hacc. case_decide; lia. }
  assert (1 <= ID job <= numJobs c) as Hkr by (case_decide; lia).
  pose proof (pigeonhole_room _ (ID job) (numJobs c) Hnd) as Hroom.
  rewrite length_map in Hroom.
  specialize (Hroom ltac:(intros x Hx; specialize (Hrange x Hx); lia) Hnotin Hkr).
  pose proof (shape_collector c s HS) as Hsc. rewrite Hco in Hsc.
  unfold collected in Hroom. rewrite Hco, app_nil_r in Hroom. lia.
Qed.

(** X10: the WaitGroup counter is the number of workers started and
    not yet returned, never more than numWorkers; results is closed only
    once every one of the numWorkers workers has returned. *)
Theorem waitgroup_counts_running_workers c s :
  valid_config c -> reachable c s ->
  wg s = Z.of_nat (live (workers s)) /\ 0 <= wg s <= numWorkers c /\
  (results_closed s = true ->
   wg s = 0 /\ Z.of_nat (length (workers s)) = numWorkers c /\
   forall i w, workers s !! i = Some w -> wpc w = WExit).
Proof.
  intros Hc Hr. destruct (inv_reachable c s Hc Hr) as (HS & HC & _).
  pose proof (workers_length c s Hc HS) as Hlen.
  pose proof (live_length (workers s)) as Hlive.
  pose proof (count_wg c s HC) as Hwg.
  split; [done|]. split; [lia|]. intros Hcl.
  pose proof (shape_waited c s HS HC Hcl) as H0.
  split; [lia|]. split.
  - pose proof (shape_main c s HS) as Hm.
    pose proof (shape_results_closed c s HS) as Hrc.
    rewrite Hcl in Hrc. destruct (main s); try done; lia.
  - intros i w Hi. by eapply live_zero.
Qed.

(** X11: every job the dispatcher has handed over (ids 1 .. next_job - 1)
    is either held by exactly one worker or was received by the collector
    exactly once, never both; no other job id is held or received. *)
Theorem sent_job_held_or_received c s k :
  valid_config c -> reachable c s ->
  (1 <= k < next_job c s ->
   (held_count k (workers s) + emitted_count k s)%nat = 1%nat) /\
  (~ 1 <= k < next_job c s ->
   held_count k (workers s) = 0%nat /\ (k <> 0 -> emitted_count k s = 0%nat)).
Proof.
  intros Hc Hr. destruct (inv_reachable c s Hc Hr) as (HS & HC & _).
  pose proof (next_job_bound c s Hc HS) as Hnj.
  destruct (decide (k = 0)) as [->|Hk].
  - split; [lia|]. intros _. split; [apply (count_held0 c s HC)|done].
  - pose proof (count_account c s HC k Hk) as Hacc.
    split; intros Hin; rewrite ?decide_True in Hacc by done;
      rewrite ?decide_False in Hacc by done; [done|]. split; [lia|]. intros _. lia.
Qed.

(** X12: a Result the collector has received is the result of a job
    that was sent, with twice its id as value, or it is the zero value read
    from the closed results channel, which happens only after the deadline
    has passed. *)
Theorem collected_result_provenance c s r :
  valid_config c -> reachable c s -> r ∈ collected s ->
  (1 <= JobID r < next_job c s /\ Value r = JobID r * 2) \/
  (r = {| JobID := 0; Value := 0 |} /\ results_closed s = true /\
   ctx s = DeadlineExceeded).
Proof.
  intros Hc Hr Hin. destruct (inv_reachable c s Hc Hr) as (HS & HC & HK).
  pose proof (ledger_reachable c s Hc Hr) as HL.
  pose proof (count_values c s HC r Hin) as Hval.
  destruct (decide (JobID r = 0)) as [H0|Hk].
  - right. split; [|split].
    + destruct r as [j v]. cbn in *. subst j. by rewrite Hval.
    + destruct (results_closed s) eqn:E; [done|].
      by destruct (ledger_zero c s HL E r Hin).
    + destruct (ctx s) eqn:E; try done;
        exfalso; apply (calm_genuine c s HK ltac:(by rewrite E) r Hin H0).
  - left. split; [|done].
    pose proof (count_account c s HC _ Hk) as Hacc.
    assert (JobID r ∈ map JobID (collected s)) as Hj
      by (apply list_elem_of_fmap; eauto).
    rewrite list_elem_of_In in Hj. apply (count_occ_In Z.eq_dec) in Hj.
    unfold emitted_count in Hacc. case_decide; lia.
Qed.

(** X13: the only way the program hangs before main returns: the
    deadline has passed, main is in wg.Wait(), the collector has returned,
    and every worker that has not returned waits in its send on results
    (there is at least one); the dispatcher, if it has not finished, waits
    in a send on jobs. *)
Theorem deadlock_only_at_result_send c s :
  valid_config c -> reachable c s -> main s <> MExit -> stuck c s ->
  ctx s = DeadlineExceeded /\ main s = MWait /\ collector s = CExit /\
  (exists i w job, workers s !! i = Some w /\ wpc w = WSend job) /\
  (forall i w, workers s !! i = Some w ->
     wpc w = WExit \/ exists job, wpc w = WSend job) /\
  (dispatcher s = DExit \/ exists j, dispatcher s = DFor j /\ j <= numJobs c).
Proof.
  intros Hc Hr Hmain Hstuck. pose proof Hc as (HN & HM & HM2).
  destruct (inv_reachable c s Hc Hr) as (HS & HC & HK).
  pose proof (ledger_reachable c s Hc Hr) as HL.
  pose proof (send_room_open c s) as Hroom.
  assert (Hex : exited (main s) = false) by (by destruct (main s)).
  assert (Hctx : ctx s = DeadlineExceeded).
  { pose proof (Hstuck EvTimeout) as H. unfold step in H. rewrite Hex in H.
    pose proof (shape_ctx c s HS) as Hcx.
    destruct (ctx s); [done|done|by destruct (main s)]. }
  assert (Hws : forall i w, workers s !! i = Some w ->
                  wpc w = WExit \/ exists job, wpc w = WSend job).
  { intros i w Hi. destruct (wpc w) as [|job|job|job|] eqn:Ew; eauto; exfalso.
    - pose proof (Hstuck (EvWorkerCancelled i)) as H.
      unfold step, worker_return in H. rewrite Hex, Hi, Ew, Hctx in H. cbn in H.
      by case_match.
    - pose proof (Hstuck (EvWorkerWake i)) as H.
      unfold step in H. by rewrite Hex, Hi, Ew in H.
    - pose proof (Hstuck (EvWorkerPrinted i)) as H.
      unfold step in H. by rewrite Hex, Hi, Ew in H. }
  assert (Hm : main s = MWait /\ wg s <> 0).
  { pose proof (shape_results_closed c s HS) as Hrc.
    destruct (main s) as [w| | | | |] eqn:Em; try done.
    - exfalso. destruct (decide (w <= numWorkers c)).
      + pose proof (Hstuck EvMainStartWorker) as H. unfold step in H.
        rewrite Em in H. cbn in H. by rewrite (proj2 (Z.leb_le _ _)) in H by done.
      + pose proof (Hstuck EvMainStartDispatcher) as H. unfold step in H.
        rewrite Em in H. cbn in H. by rewrite (proj2 (Z.leb_gt _ _)) in H by lia.
    - exfalso. pose proof (Hstuck EvMainStartCollector) as H. unfold step in H.
      by rewrite Em in H.
    - split; [done|]. intros H0. pose proof (Hstuck EvMainWaited) as H.
      unfold step in H. rewrite Em in H. cbn in H.
      by rewrite (proj2 (Z.eqb_eq _ _)) in H by done.
    - exfalso. pose proof (Hstuck EvMainCloseResults) as H. unfold step in H.
      by rewrite Em, Hrc in H.
    - exfalso. pose proof (Hstuck EvMainCancelled) as H. unfold step in H.
      by rewrite Em, Hctx in H. }
  destruct Hm as [Hm Hwg].
  assert (Hsend : exists i w job, workers s !! i = Some w /\ wpc w = WSend job).
  { destruct (workers_cases (workers s)) as [(i & w & Hi & Hw)|Hlive].
    - destruct (Hws i w Hi) as [?|[job Hj]]; [done|]. by exists i, w, job.
    - pose proof (count_wg c s HC) as H. lia. }
  pose proof (shape_main c s HS) as Hsm. rewrite Hm in Hsm.
  pose proof (shape_results_closed c s HS) as Hrc. rewrite Hm in Hrc.
  split; [done|]. split; [done|]. split; [|split; [done|split; [done|]]].
  - destruct (collector s) as [|r|r res|] eqn:Ec; [by destruct Hsm as (_ & _ & ?)| | |done];
      exfalso.
    + destruct Hsend as (i & w & job & Hi & Hw).
      assert (r <= numJobs c) as Hr'.
      { eapply Hroom; eauto. apply (ledger_zero c s HL Hrc). }
      pose proof (Hstuck EvCollectorCancelled) as H. unfold step in H.
      rewrite Hex, Ec, Hctx in H. cbn in H.
      by rewrite (proj2 (Z.leb_le _ _)) in H by done.
    + pose proof (Hstuck EvCollectorPrinted) as H. unfold step in H.
      by rewrite Hex, Ec in H.
  - destruct (dispatcher s) as [|j|] eqn:Ed; [by destruct Hsm as (_ & ? & _)| |by left].
    right. exists j. split; [done|].
    destruct (decide (j <= numJobs c)); [done|exfalso].
    pose proof (Hstuck EvDispatcherClose) as H. unfold step in H.
    rewrite Hex, Ed in H. cbn in H.
    rewrite (proj2 (Z.leb_gt _ _)) in H by lia. by case_match.
Qed.

(** X14: a line Worker id: processed job k is printed at most once for
    each job, by a worker numbered 1 .. numWorkers, for a job that was
    sent, and only once the collector has received the Result of that
    job. *)
Theorem processed_line_after_receipt c s id k :
  valid_config c -> reachable c s -> WorkerProcessed id k ∈ stdout s ->
  1 <= id <= numWorkers c /\ 1 <= k < next_job c s /\
  count_lines (is_processed k) (stdout s) = 1%nat /\
  {| JobID := k; Value := k * 2 |} ∈ collected s.
Proof.
  intros Hc Hr Hin. destruct (inv_reachable c s Hc Hr) as (HS & HC & HK).
  pose proof (ledger_reachable c s Hc Hr) as HL.
  pose proof (workers_length c s Hc HS) as Hlen.
  pose proof (ledger_ids c s HL id k Hin) as Hid.
  assert (1 <= count_lines (is_processed k) (stdout s))%nat as Hone.
  { apply (count_lines_elem_of _ _ (WorkerProcessed id k)); [|done].
    cbn. by rewrite bool_decide_eq_true_2. }
  assert (k <> 0) as Hk.
  { intros ->. pose proof (ledger_processed0 c s HL). lia. }
  pose proof (ledger_processed c s HL k Hk) as Hproc.
  pose proof (emitted_at_most_once c s k HC Hk) as Hmost.
  pose proof (count_account c s HC k Hk) as Hacc.
  split; [lia|]. split; [case_decide; lia|]. split; [lia|].
  assert (In k (map JobID (collected s))) as Hk'
    by (apply (count_occ_In Z.eq_dec); unfold emitted_count in *; lia).
  rewrite <- list_elem_of_In in Hk'.
  apply list_elem_of_fmap in Hk' as (r & -> & Hr').
  rewrite <- (count_values c s HC r Hr'). by rewrite Result_eta.
Qed.

(** X15: main prints neither of its two lines before it leaves its last
    select, and exactly one of them, once, when it leaves it: All results
    collected. only after exactly numJobs Result lines, Main: context
    timeout or cancelled. only when the deadline has passed. *)
Theorem main_prints_one_line c s :
  valid_config c -> reachable c s ->
  (main s <> MExit -> (AllCollected ∉ stdout s) /\ (MainTimeout ∉ stdout s)) /\
  (main s = MExit ->
   (count_lines is_all_collected (stdout s)
    + count_lines is_main_timeout (stdout s))%nat = 1%nat) /\
  (AllCollected ∈ stdout s ->
   count_lines is_all_collected (stdout s) = 1%nat /\
   Z.of_nat (length (printed_results (stdout s))) = numJobs c) /\
  (MainTimeout ∈ stdout s ->
   count_lines is_main_timeout (stdout s) = 1%nat /\ ctx s = DeadlineExceeded).
Proof.
  intros Hc Hr.
  pose proof (finals_reachable c s Hc Hr) as [Hcount Htime _ _].
  pose proof (marks_reachable c s Hc Hr) as [_ Hall].
  assert (count_lines is_all_collected (stdout s)
          + count_lines is_main_timeout (stdout s) <= 1)%nat as Hle
    by (destruct (exited (main s)); lia).
  split; [|split; [|split]].
  - intros Hm. assert (exited (main s) = false) as He by (by destruct (main s)).
    rewrite He in Hcount.
    split; intros Hin;
      [apply (count_lines_elem_of is_all_collected) in Hin
      |apply (count_lines_elem_of is_main_timeout) in Hin]; try done; lia.
  - intros Hm. by rewrite Hm in Hcount.
  - intros Hin. apply (count_lines_elem_of is_all_collected) in Hin; [|done].
    assert (count_lines is_all_collected (stdout s) = 1%nat) as Hone by lia.
    split; [done|]. by apply Hall.
  - intros Hin. apply (count_lines_elem_of is_main_timeout) in Hin; [|done].
    split; [lia|]. by apply Htime.
Qed.

(** X16: the workers are numbered 1, 2, ... in the order they were
    started, and each one prints exactly one line cancelled or jobs channel
    closed when it returns, and none before. *)
Theorem worker_exit_line_once c s i w :
  valid_config c -> reachable c s -> workers s !! i = Some w ->
  wid w = Z.of_nat i + 1 /\
  count_lines (is_exit_line (wid w)) (stdout s)
  = match wpc w with WExit => 1%nat | _ => 0%nat end.
Proof.
  intros Hc Hr Hi.
  pose proof (ledger_wid c s (ledger_reachable c s Hc Hr) i w Hi) as Hwid.
  pose proof (finals_exit c s (finals_reachable c s Hc Hr) i w Hi) as Hexit.
  split; [done|]. unfold alive in Hexit. destruct (wpc w); lia.
Qed.

Lemma full_run_end_reachable : reachable main_config full_run_end.
Proof. exists full_run. vm_compute. reflexivity. Qed.

Lemma mid_job_reachable : reachable main_config mid_job.
Proof. exists timeout_mid_job. vm_compute. reflexivity. Qed.

Lemma zero_result_printed_reachable : reachable main_config zero_result_printed.
Proof. exists zero_result_run. vm_compute. reflexivity. Qed.

Lemma zero_timeout_config_valid : valid_config zero_timeout_config.
Proof. unfold valid_config, int_max. cbn. lia. Qed.

Lemma deadlocked_reachable : reachable zero_timeout_config deadlocked.
Proof. exists deadlock_run. vm_compute. reflexivity. Qed.

Lemma deadlocked_stuck : stuck zero_timeout_config deadlocked.
Proof.
  intros e. destruct e; try reflexivity.
  all: destruct i as [|[|[|i]]]; reflexivity.
Qed.

Lemma waitgroup_counts_running_workers_witness :
  valid_config main_config /\ reachable main_config full_run_end /\
  results_closed full_run_end = true /\
  wg full_run_end = 0 /\ Z.of_nat (length (workers full_run_end)) = 3 /\
  (forall i w, workers full_run_end !! i = Some w -> wpc w = WExit).
Proof.
  pose proof (waitgroup_counts_running_workers main_config full_run_end
                main_config_valid full_run_end_reachable) as (_ & _ & Hcl).
  assert (results_closed full_run_end = true) as Hrc by reflexivity.
  destruct (Hcl Hrc) as (Hwg & Hlen & Hall).
  split; [exact main_config_valid|]. split; [exact full_run_end_reachable|].
  split; [exact Hrc|]. split; [exact Hwg|]. split; [exact Hlen|exact Hall].
Defined.

Lemma sent_job_held_or_received_witness :
  valid_config main_config /\ reachable main_config mid_job /\
  1 <= 2 < next_job main_config mid_job /\
  (held_count 2 (workers mid_job) + emitted_count 2 mid_job)%nat = 1%nat.
Proof.
  pose proof (sent_job_held_or_received main_config mid_job 2
                main_config_valid mid_job_reachable) as (Hin & _).
  assert (1 <= 2 < next_job main_config mid_job) as Hk by (cbn; lia).
  split; [exact main_config_valid|]. split; [exact mid_job_reachable|].
  split; [exact Hk|exact (Hin Hk)].
Defined.

Lemma collected_result_provenance_witness :
  valid_config main_config /\ reachable main_config zero_result_printed /\
  ({| JobID := 0; Value := 0 |} ∈ collected zero_result_printed) /\
  results_closed zero_result_printed = true /\
  ctx zero_result_printed = DeadlineExceeded.
Proof.
  assert ({| JobID := 0; Value := 0 |} ∈ collected zero_result_printed) as Hin
    by (apply list_elem_of_In; vm_compute; tauto).
  split; [exact main_config_valid|]. split; [exact zero_result_printed_reachable|].
  split; [exact Hin|].
  destruct (collected_result_provenance main_config zero_result_printed _
              main_config_valid zero_result_printed_reachable Hin)
    as [(Hk & _)|(_ & Hcl & Hctx)].
  - cbn in Hk. lia.
  - split; [exact Hcl|exact Hctx].
Defined.

Lemma deadlock_only_at_result_send_witness :
  valid_config zero_timeout_config /\ reachable zero_timeout_config deadlocked /\
  main deadlocked <> MExit /\ stuck zero_timeout_config deadlocked /\
  ctx deadlocked = DeadlineExceeded /\ main deadlocked = MWait /\
  collector deadlocked = CExit /\
  (exists i w job, workers deadlocked !! i = Some w /\ wpc w = WSend job).
Proof.
  assert (main deadlocked <> MExit) as Hm by discriminate.
  pose proof (deadlock_only_at_result_send zero_timeout_config deadlocked
                zero_timeout_config_valid deadlocked_reachable Hm deadlocked_stuck)
    as (Hctx & Hmw & Hco & Hsend & _).
  split; [exact zero_timeout_config_valid|]. split; [exact deadlocked_reachable|].
  split; [exact Hm|]. split; [exact deadlocked_stuck|].
  split; [exact Hctx|]. split; [exact Hmw|]. split; [exact Hco|exact Hsend].
Defined.

Lemma processed_line_after_receipt_witness :
  valid_config main_config /\ reachable main_config full_run_end /\
  (WorkerProcessed 2 5 ∈ stdout full_run_end) /\
  1 <= 2 <= numWorkers main_config /\
  count_lines (is_processed 5) (stdout full_run_end) = 1%nat /\
  ({| JobID := 5; Value := 5 * 2 |} ∈ collected full_run_end).
Proof.
  assert (WorkerProcessed 2 5 ∈ stdout full_run_end) as Hin
    by (apply list_elem_of_In; vm_compute; tauto).
  pose proof (processed_line_after_receipt main_config full_run_end 2 5
                main_config_valid full_run_end_reachable Hin)
    as (Hid & _ & Hone & Hres).
  split; [exact main_config_valid|]. split; [exact full_run_end_reachable|].
  split; [exact Hin|]. split; [exact Hid|]. split; [exact Hone|exact Hres].
Defined.

Lemma main_prints_one_line_witness :
  valid_config main_config /\ reachable main_config full_run_end /\
  main full_run_end = MExit /\ (AllCollected ∈ stdout full_run_end) /\
  (count_lines is_all_collected (stdout full_run_end)
   + count_lines is_main_timeout (stdout full_run_end))%nat = 1%nat /\
  Z.of_nat (length (printed_results (stdout full_run_end))) = numJobs main_config.
Proof.
  pose proof (main_prints_one_line main_config full_run_end
                main_config_valid full_run_end_reachable) as (_ & Hexit & Hall & _).
  assert (main full_run_end = MExit) as Hm by reflexivity.
  assert (AllCollected ∈ stdout full_run_end) as Hin
    by (apply list_elem_of_In; vm_compute; tauto).
  destruct (Hall Hin) as (_ & Hlen).
  split; [exact main_config_valid|]. split; [exact full_run_end_reachable|].
  split; [exact Hm|]. split; [exact Hin|]. split; [exact (Hexit Hm)|exact Hlen].
Defined.

Lemma worker_exit_line_once_witness :
  valid_config main_config /\ reachable main_config full_run_end /\
  workers full_run_end !! 1%nat = Some {| wid := 2; wpc := WExit |} /\
  count_lines (is_exit_line 2) (stdout full_run_end) = 1%nat.
Proof.
  assert (workers full_run_end !! 1%nat = Some {| wid := 2; wpc := WExit |}) as Hi
    by reflexivity.
  pose proof (worker_exit_line_once main_config full_run_end 1 _
                main_config_valid full_run_end_reachable Hi) as (_ & Hone).
  split; [exact main_config_valid|]. split; [exact full_run_end_reachable|].
  split; [exact Hi|exact Hone].
Defined.

End Pool.
